(** * Routing and middleware composition: koa-router, koa application, redux applyMiddleware

  A shallow embedding of
    - the constructor, [Router.prototype.match], [routes]/[dispatch],
      [allowedMethods], [use], [register], [prefix], [route], [url],
      [param]                                       (koa-router, router.js)
    - [use], [handleRequest] and [respond]          (koa, application.js)
    - [applyMiddleware]                             (redux, applyMiddleware.js)

  JavaScript objects that are shared by reference (layers, routers) live in
  an explicit heap; JavaScript functions are values of a type of function
  references whose code is given by an environment. *)

From Stdlib Require Import ZArith Ascii.
From stdpp Require Import base option list strings pretty gmap.

Local Open Scope string_scope.
Local Open Scope list_scope.
Local Open Scope Z_scope.

(** ** JavaScript values and operators used by the sources *)

Module Js.

(** What a [throw] carries: an [Error] object (with its message), one of the
    [http-errors] classes, or whatever a user callback returned. *)
Inductive thrown :=
| Error (message : string)
| TypeError (message : string)
| HttpNotImplemented
| HttpMethodNotAllowed
| UserThrowable (tag : string).

(** Truthiness of a string, of an optional string ([undefined]/[null] is
    [None]) and of a number. *)
Definition truthy_string (s : string) : bool := negb (bool_decide (s = "")).

Definition truthy_opt (o : option string) : bool :=
  match o with
  | Some s => truthy_string s
  | None => false
  end.

Definition truthy_num (z : Z) : bool := negb (z =? 0).

(** [a || b] on optional strings. *)
Definition or_else (a b : option string) : option string :=
  if truthy_opt a then a else b.

(** [Array.prototype.indexOf] on an array of strings: the first index
    holding [x], or [-1]. *)
Fixpoint indexOf_from (x : string) (l : list string) (i : Z) : Z :=
  match l with
  | [] => -1
  | y :: l' => if bool_decide (y = x) then i else indexOf_from x l' (i + 1)
  end.

Definition indexOf (l : list string) (x : string) : Z := indexOf_from x l 0.

(** The bitwise complement [~n]. *)
Definition bitnot (n : Z) : Z := Z.lnot n.

(** [Array.prototype.join]. *)
Fixpoint join (sep : string) (l : list string) : string :=
  match l with
  | [] => ""
  | [x] => x
  | x :: l' => x +:+ sep +:+ join sep l'
  end.

(** The properties that every object literal inherits from
    [Object.prototype]: [o[name]] is truthy for these names also when [o]
    has no property of its own under that name, and an assignment to
    [__proto__] creates no property. *)
Definition Object_prototype : list string :=
  ["constructor"; "__defineGetter__"; "__defineSetter__"; "hasOwnProperty";
   "__lookupGetter__"; "__lookupSetter__"; "isPrototypeOf";
   "propertyIsEnumerable"; "toString"; "valueOf"; "__proto__";
   "toLocaleString"].

Definition inherited (name : string) : bool :=
  bool_decide (name ∈ Object_prototype).

(** A property name written as a decimal integer ([0], or digits that do
    not start with [0]): [Object.keys] lists such keys before the others
    and by increasing value, not in the order of their creation. *)
Definition digits : list ascii :=
  ["0"; "1"; "2"; "3"; "4"; "5"; "6"; "7"; "8"; "9"]%char.

Definition integer_key (name : string) : bool :=
  match name with
  | EmptyString => false
  | String c rest =>
      if bool_decide (c = "0"%char) then bool_decide (rest = EmptyString)
      else forallb (fun d => bool_decide (d ∈ digits))
             (c :: String.list_ascii_of_string rest)
  end.

End Js.

(** ** Layers

  [layer.js] is not among the sources.  A layer is the record of the
  properties that [router.js] reads: [path], [methods], [name], [stack]
  (its handlers), [paramNames], the options it was built with, and the
  compiled matcher [regexp] ([Layer.prototype.match] is
  [this.regexp.test(path)]). *)

Definition fnref := nat.

Module Layer.

Record options := {
  end_ : bool;
  opt_name : option string;
  sensitive : bool;
  strict : bool;
  prefix : string;
  ignoreCaptures : option bool
}.

Record t := {
  path : string;
  methods : list string;
  name : option string;
  stack : list fnref;
  paramNames : list string;
  opts : options;
  regexp : string -> bool
}.

Definition match_ (layer : t) (p : string) : bool := regexp layer p.

(** An argument of [url]: a value, or an object of named values. *)
Inductive url_arg :=
| UrlValue (v : string)
| UrlObject (fields : list (string * string)).

(** The other operations of [layer.js] that [router.js] calls; their code is
    not among the sources, so they are an interface.  [new] is the
    constructor [new Layer(path, methods, middleware, opts)], and the
    methods that mutate a layer in place ([setPrefix], [param]) give the
    layer's new content. *)
Class impl := {
  new : string -> list string -> list fnref -> options -> t;
  setPrefix : string -> t -> t;
  param : string -> fnref -> t -> t;
  captures : t -> string -> option (list string) -> list string;
  params : t -> string -> list string -> option (gmap string string) ->
           gmap string string;
  url : t -> list url_arg -> Js.thrown + string
}.

End Layer.

(** ** Routers *)

Module RouterObject.

Record options := {
  prefix : option string;
  sensitive : bool;
  strict : bool;
  routerPath : option string
}.

(** A router; [L] is what its stack holds: layer references while routes
    are registered, the layers themselves in the view a request sees. *)
Record t (L : Type) := {
  opts : options;
  methods : list string;
  params : list (string * fnref);
  stack : list L
}.
Arguments opts {L} _.
Arguments methods {L} _.
Arguments params {L} _.
Arguments stack {L} _.

End RouterObject.


(** ** The request context and the handlers' monad

    [context.js], [request.js] and [response.js] are not among the sources:
    the context is the record of the properties the sources read and write
    through [ctx], next to the ones of node's response [ctx.res]. *)

Module Koa.

(** What [ctx.body] holds; [null] and [undefined] alike are [BodyNull]
    (the sources test [null == body]). *)
Inductive body_value :=
| BodyNull
| BodyString (s : string)
| BodyBuffer (bytes : string)
| BodyStream (id : nat)
| BodyJson (value : string).

(** What [respond] hands to node's response. *)
Inductive output :=
| End_ (chunk : option string)
| Pipe (stream : nat).

Record request := {
  method : string;
  path : string;
  routerPath : option string
}.

(** The properties written by the router's dispatch. *)
Record routing := {
  matched : option (list Layer.t);
  router : option (RouterObject.t Layer.t);
  _matchedRoute : option string;
  _matchedRouteName : option string;
  captures : option (list string);
  params : option (gmap string string);
  routerName : option string
}.

Record response := {
  status : option Z;
  body : body_value;
  header : gmap string string;
  message : option string;
  type : option string;
  length : option Z;
  respond_flag : option bool;
  writable : bool
}.

(** node's [http.ServerResponse]: [statusCode], [headersSent], the
    listeners registered with [onFinished], the calls of [end]/[pipe]. *)
Record node_response := {
  statusCode : Z;
  headersSent : bool;
  finished_listeners : nat;
  written : list output
}.

(** The context, and next to it the flags that the composed chains keep
    in their closures: one per running handler, set once the handler has
    continued. *)
Record ctx := {
  req : request;
  route : routing;
  resp : response;
  res : node_response;
  state : gmap string string;
  continued : list bool
}.

Definition with_route (f : routing -> routing) (c : ctx) : ctx :=
  {| req := req c; route := f (route c); resp := resp c; res := res c;
     state := state c; continued := continued c |}.

Definition with_resp (f : response -> response) (c : ctx) : ctx :=
  {| req := req c; route := route c; resp := f (resp c); res := res c;
     state := state c; continued := continued c |}.

Definition with_res (f : node_response -> node_response) (c : ctx) : ctx :=
  {| req := req c; route := route c; resp := resp c; res := f (res c);
     state := state c; continued := continued c |}.

Definition set_matched (v : list Layer.t) : ctx -> ctx :=
  with_route (fun r =>
    {| matched := Some v; router := router r;
       _matchedRoute := _matchedRoute r;
       _matchedRouteName := _matchedRouteName r; captures := captures r;
       params := params r; routerName := routerName r |}).

Definition set_router (v : RouterObject.t Layer.t) : ctx -> ctx :=
  with_route (fun r =>
    {| matched := matched r; router := Some v;
       _matchedRoute := _matchedRoute r;
       _matchedRouteName := _matchedRouteName r; captures := captures r;
       params := params r; routerName := routerName r |}).

Definition set_matchedRoute (v : string) : ctx -> ctx :=
  with_route (fun r =>
    {| matched := matched r; router := router r;
       _matchedRoute := Some v;
       _matchedRouteName := _matchedRouteName r; captures := captures r;
       params := params r; routerName := routerName r |}).

Definition set_matchedRouteName (v : option string) : ctx -> ctx :=
  with_route (fun r =>
    {| matched := matched r; router := router r;
       _matchedRoute := _matchedRoute r;
       _matchedRouteName := v; captures := captures r;
       params := params r; routerName := routerName r |}).

Definition set_captures (v : list string) : ctx -> ctx :=
  with_route (fun r =>
    {| matched := matched r; router := router r;
       _matchedRoute := _matchedRoute r;
       _matchedRouteName := _matchedRouteName r; captures := Some v;
       params := params r; routerName := routerName r |}).

Definition set_params (v : gmap string string) : ctx -> ctx :=
  with_route (fun r =>
    {| matched := matched r; router := router r;
       _matchedRoute := _matchedRoute r;
       _matchedRouteName := _matchedRouteName r; captures := captures r;
       params := Some v; routerName := routerName r |}).

Definition set_routerName (v : option string) : ctx -> ctx :=
  with_route (fun r =>
    {| matched := matched r; router := router r;
       _matchedRoute := _matchedRoute r;
       _matchedRouteName := _matchedRouteName r; captures := captures r;
       params := params r; routerName := v |}).

Definition set_status (v : Z) : ctx -> ctx :=
  with_resp (fun r =>
    {| status := Some v; body := body r; header := header r;
       message := message r; type := type r; length := length r;
       respond_flag := respond_flag r; writable := writable r |}).

(** [ctx.body = v], as far as the record goes: the new value of
    [ctx.body].  The setter is code of [response.js]; the comment in
    [respond] says that it strips headers when the value is [null], and
    the record does not follow it there. *)
Definition set_body (v : body_value) : ctx -> ctx :=
  with_resp (fun r =>
    {| status := status r; body := v; header := header r;
       message := message r; type := type r; length := length r;
       respond_flag := respond_flag r; writable := writable r |}).

(** [ctx.set(field, value)]. *)
Definition set_header (field value : string) : ctx -> ctx :=
  with_resp (fun r =>
    {| status := status r; body := body r;
       header := <[field := value]> (header r);
       message := message r; type := type r; length := length r;
       respond_flag := respond_flag r; writable := writable r |}).

Definition set_type (v : string) : ctx -> ctx :=
  with_resp (fun r =>
    {| status := status r; body := body r; header := header r;
       message := message r; type := Some v; length := length r;
       respond_flag := respond_flag r; writable := writable r |}).

Definition set_length (v : Z) : ctx -> ctx :=
  with_resp (fun r =>
    {| status := status r; body := body r; header := header r;
       message := message r; type := type r; length := Some v;
       respond_flag := respond_flag r; writable := writable r |}).

Definition set_statusCode (v : Z) : ctx -> ctx :=
  with_res (fun r =>
    {| statusCode := v; headersSent := headersSent r;
       finished_listeners := finished_listeners r; written := written r |}).

Definition add_finished_listener : ctx -> ctx :=
  with_res (fun r =>
    {| statusCode := statusCode r; headersSent := headersSent r;
       finished_listeners := S (finished_listeners r);
       written := written r |}).

(** [res.end(chunk)] and [body.pipe(res)], recorded as calls; [headersSent]
    stays the flag that the sources read before the call. *)
Definition write (o : output) : ctx -> ctx :=
  with_res (fun r =>
    {| statusCode := statusCode r; headersSent := headersSent r;
       finished_listeners := finished_listeners r;
       written := written r ++ [o] |}).

Definition set_state (key value : string) (c : ctx) : ctx :=
  {| req := req c; route := route c; resp := resp c; res := res c;
     state := <[key := value]> (state c); continued := continued c |}.

Definition with_continued (f : list bool -> list bool) (c : ctx) : ctx :=
  {| req := req c; route := route c; resp := resp c; res := res c;
     state := state c; continued := f (continued c) |}.

(** How a promise settles. *)
Inductive completion :=
| Resolved
| Rejected (e : Js.thrown).

(** A computation on the request context: what calling an [async] function
    and awaiting its promise does to [ctx]. *)
Definition M := ctx -> ctx * completion.

(** A koa middleware [(ctx, next) => promise]; [ctx] is the state. *)
Definition middleware := M -> M.

(** [p.then(f)]: [f] runs once [p] is resolved; a rejection passes. *)
Definition then_ (p : M) (f : M) : M := fun c =>
  match p c with
  | (c', Resolved) => f c'
  | (c', Rejected e) => (c', Rejected e)
  end.

(** [p.catch(f)]. *)
Definition catch_ (p : M) (f : Js.thrown -> M) : M := fun c =>
  match p c with
  | (c', Resolved) => (c', Resolved)
  | (c', Rejected e) => f e c'
  end.

(** The code of the functions that user code hands over as middleware. *)
Class code := { exec : fnref -> middleware }.

(** Modelled from the spec: [koa-compose] is a dependency that is not among
    the sources.  Handler [i] receives a "continue" that runs handler [i+1],
    or the final [next] after the last; with no handler the composed
    function is [next]; and a handler that continues a second time gets a
    failure instead of a second run of the rest of the chain. *)
Definition once (flag : nat) (k : M) : M := fun c =>
  if default false (continued c !! flag)
  then (c, Rejected (Js.Error "next() called multiple times"))
  else k (with_continued (fun flags => <[flag := true]> flags) c).

Definition guarded (h : middleware) : middleware := fun k c =>
  h (once (List.length (continued c)) k)
    (with_continued (fun flags => flags ++ [false]) c).

Definition compose (handlers : list middleware) : middleware :=
  fun next => foldr guarded next handlers.

End Koa.

(** ** The router: matching and dispatch *)

Module Router.

Import RouterObject.

Record MatchResult := {
  mr_path : list Layer.t;
  mr_pathAndMethod : list Layer.t;
  mr_route : bool
}.

Definition push_path (layer : Layer.t) (matched : MatchResult) : MatchResult :=
  {| mr_path := mr_path matched ++ [layer];
     mr_pathAndMethod := mr_pathAndMethod matched;
     mr_route := mr_route matched |}.

Definition push_pathAndMethod (layer : Layer.t) (matched : MatchResult) : MatchResult :=
  {| mr_path := mr_path matched;
     mr_pathAndMethod := mr_pathAndMethod matched ++ [layer];
     mr_route := mr_route matched |}.

Definition set_route (matched : MatchResult) : MatchResult :=
  {| mr_path := mr_path matched;
     mr_pathAndMethod := mr_pathAndMethod matched;
     mr_route := true |}.

(** The body of the [for] loop of [Router.prototype.match]. *)
Definition match_step (path method : string)
    (matched : MatchResult) (layer : Layer.t) : MatchResult :=
  if Layer.match_ layer path then
    let matched := push_path layer matched in
    if (Z.of_nat (length (Layer.methods layer)) =? 0)
       || Js.truthy_num (Js.bitnot (Js.indexOf (Layer.methods layer) method))
    then
      let matched := push_pathAndMethod layer matched in
      if Js.truthy_num (Z.of_nat (length (Layer.methods layer)))
      then set_route matched else matched
    else matched
  else matched.

(** [Router.prototype.match]. *)
Definition match_ (router : t Layer.t) (path method : string) : MatchResult :=
  fold_left (match_step path method) (stack router)
    {| mr_path := []; mr_pathAndMethod := []; mr_route := false |}.

(** The functions of a matched chain: the closure that [dispatch] creates
    for a layer (it captures [path] and [layer]), or a handler of a
    layer's [stack]. *)
Inductive fn :=
| Bind (path : string) (layer : Layer.t)
| Handler (f : fnref).

Definition call `{!Koa.code, !Layer.impl} (f : fn) : Koa.middleware :=
  match f with
  | Bind path layer => fun next ctx =>
      let captures :=
        Layer.captures layer path (Koa.captures (Koa.route ctx)) in
      let ctx := Koa.set_captures captures ctx in
      let ctx :=
        Koa.set_params
          (Layer.params layer path captures (Koa.params (Koa.route ctx)))
          ctx in
      let ctx := Koa.set_routerName (Layer.name layer) ctx in
      next ctx
  | Handler f => Koa.exec f
  end.

(** [matchedLayers.reduce(function(memo, layer) {...}, [])]. *)
Definition layerChain (path : string) (matchedLayers : list Layer.t) : list fn :=
  fold_left
    (fun memo layer =>
       (memo ++ [Bind path layer]) ++ map Handler (Layer.stack layer))
    matchedLayers [].

(** [router.opts.routerPath || ctx.routerPath || ctx.path]. *)
Definition request_path (router : t Layer.t) (ctx : Koa.ctx) : string :=
  match Js.or_else (routerPath (opts router)) (Koa.routerPath (Koa.req ctx)) with
  | Some p => if Js.truthy_string p then p else Koa.path (Koa.req ctx)
  | None => Koa.path (Koa.req ctx)
  end.

(** The function [dispatch] returned by [Router.prototype.routes]. *)
Definition routes `{!Koa.code, !Layer.impl} (router : t Layer.t) : Koa.middleware :=
  fun next ctx =>
    let path := request_path router ctx in
    let matched := match_ router path (Koa.method (Koa.req ctx)) in
    let ctx :=
      match Koa.matched (Koa.route ctx) with
      | Some m => Koa.set_matched (m ++ mr_path matched) ctx
      | None => Koa.set_matched (mr_path matched) ctx
      end in
    let ctx := Koa.set_router router ctx in
    if negb (mr_route matched) then next ctx
    else
      let matchedLayers := mr_pathAndMethod matched in
      match last matchedLayers with
      | None =>
          (ctx, Koa.Rejected
                  (Js.TypeError "Cannot read property 'path' of undefined"))
      | Some mostSpecificLayer =>
          let ctx := Koa.set_matchedRoute (Layer.path mostSpecificLayer) ctx in
          let ctx :=
            if Js.truthy_opt (Layer.name mostSpecificLayer)
            then Koa.set_matchedRouteName (Layer.name mostSpecificLayer) ctx
            else ctx in
          Koa.compose (map call (layerChain path matchedLayers)) next ctx
      end.

(** The object [allowed] of [allowedMethods], used as a set of names, as
    far as its own properties go: [allowed[method] = method] keeps the
    place of a name that is already a key and puts a new one last, and
    [Object.keys] lists the keys in that order.  This is the object of the
    code for the names that HTTP methods have; it is not for a key that is
    written as an integer ([Js.integer_key], listed first by [Object.keys])
    or for a name of [Js.Object_prototype] (found by a lookup although it
    was never set), and the statements about [allowedMethods] say where
    they leave such names out. *)
Definition object := list (string * string).

Fixpoint object_set (key value : string) (o : object) : object :=
  match o with
  | [] => [(key, value)]
  | (k, v) :: o' =>
      if bool_decide (k = key) then (k, value) :: o'
      else (k, v) :: object_set key value o'
  end.

Fixpoint object_get (key : string) (o : object) : option string :=
  match o with
  | [] => None
  | (k, v) :: o' => if bool_decide (k = key) then Some v else object_get key o'
  end.

Definition object_keys (o : object) : list string := map fst o.

(** The two nested [forEach] of [allowedMethods]. *)
Definition collect_allowed (matched : list Layer.t) : object :=
  fold_left
    (fun allowed route =>
       fold_left (fun allowed method => object_set method method allowed)
         (Layer.methods route) allowed)
    matched [].

(** The [options] of [allowedMethods]; a user callback is given by the
    throwable it returns. *)
Record allowed_options := {
  throw : bool;
  notImplemented : option Js.thrown;
  methodNotAllowed : option Js.thrown
}.

(** [!ctx.status || ctx.status === 404]. *)
Definition status_unset_or_404 (ctx : Koa.ctx) : bool :=
  match Koa.status (Koa.resp ctx) with
  | None => true
  | Some code => negb (Js.truthy_num code) || (code =? 404)
  end.

(** The callback that [allowedMethods] passes to [next().then]. *)
Definition after_next (implemented : list string) (options : allowed_options)
    : Koa.M := fun ctx =>
  if status_unset_or_404 ctx then
    match Koa.matched (Koa.route ctx) with
    | None =>
        (ctx, Koa.Rejected
                (Js.TypeError "Cannot read property 'forEach' of undefined"))
    | Some matched =>
        let allowed := collect_allowed matched in
        let allowedArr := object_keys allowed in
        let method := Koa.method (Koa.req ctx) in
        if negb (Js.truthy_num (Js.bitnot (Js.indexOf implemented method))) then
          if throw options then
            (ctx, Koa.Rejected
                    (default Js.HttpNotImplemented (notImplemented options)))
          else
            let ctx := Koa.set_status 501 ctx in
            (Koa.set_header "Allow" (Js.join ", " allowedArr) ctx, Koa.Resolved)
        else if Js.truthy_num (Z.of_nat (length allowedArr)) then
          if bool_decide (method = "OPTIONS") then
            let ctx := Koa.set_status 200 ctx in
            let ctx := Koa.set_body (Koa.BodyString "") ctx in
            (Koa.set_header "Allow" (Js.join ", " allowedArr) ctx, Koa.Resolved)
          else if negb (Js.truthy_opt (object_get method allowed)) then
            if throw options then
              (ctx, Koa.Rejected
                      (default Js.HttpMethodNotAllowed (methodNotAllowed options)))
            else
              let ctx := Koa.set_status 405 ctx in
              (Koa.set_header "Allow" (Js.join ", " allowedArr) ctx, Koa.Resolved)
          else (ctx, Koa.Resolved)
        else (ctx, Koa.Resolved)
    end
  else (ctx, Koa.Resolved).

(** [Router.prototype.allowedMethods]. *)
Definition allowedMethods {L} (router : t L) (options : allowed_options)
    : Koa.middleware :=
  let implemented := methods router in
  fun next => Koa.then_ next (after_next implemented options).

(** [Router.prototype.route]: the loop over the stack. *)
Fixpoint route_from (routes : list Layer.t) (name : string) : option Layer.t :=
  match routes with
  | [] => None
  | r :: routes' =>
      if Js.truthy_opt (Layer.name r) && bool_decide (Layer.name r = Some name)
      then Some r
      else route_from routes' name
  end.

Definition route (router : t Layer.t) (name : string) : option Layer.t :=
  route_from (stack router) name.

(** What [Router.prototype.url] returns: a string, or an [Error] object. *)
Inductive url_value :=
| UrlString (s : string)
| UrlError (e : Js.thrown).

(** [Router.prototype.url]; [args] are the arguments after [name]. *)
Definition url `{!Layer.impl} (router : t Layer.t) (name : string)
    (args : list Layer.url_arg) : Js.thrown + url_value :=
  match route router name with
  | Some route =>
      match Layer.url route args with
      | inl e => inl e
      | inr s => inr (UrlString s)
      end
  | None => inr (UrlError (Js.Error ("No route found for name: " +:+ name)))
  end.

(** *** Registration

    Routers and layers are objects shared by reference: a heap holds them,
    and a router's stack holds addresses of layers. *)

Record heap := {
  layers : list Layer.t;
  routers : list (t nat)
}.

Definition update_layer (l : nat) (f : Layer.t -> Layer.t) (h : heap) : heap :=
  {| layers := alter f l (layers h); routers := routers h |}.

Definition update_router (r : nat) (f : t nat -> t nat) (h : heap) : heap :=
  {| layers := layers h; routers := alter f r (routers h) |}.

(** A new layer object; its address is the next free one. *)
Definition alloc_layer (layer : Layer.t) (h : heap) : nat * heap :=
  (length (layers h),
   {| layers := layers h ++ [layer]; routers := routers h |}).

(** [router.stack.push(l)]. *)
Definition push (l : nat) (router : t nat) : t nat :=
  {| opts := opts router; methods := methods router;
     params := params router; stack := stack router ++ [l] |}.

(** [router.params[key] = fn] on the object [params]: an existing key
    keeps its place, a new one comes last. *)
Fixpoint params_set (key : string) (fn : fnref) (o : list (string * fnref))
    : list (string * fnref) :=
  match o with
  | [] => [(key, fn)]
  | (k, v) :: o' =>
      if bool_decide (k = key) then (k, fn) :: o'
      else (k, v) :: params_set key fn o'
  end.

Fixpoint params_get (key : string) (o : list (string * fnref)) : option fnref :=
  match o with
  | [] => None
  | (k, v) :: o' => if bool_decide (k = key) then Some v else params_get key o'
  end.

Definition set_param (key : string) (fn : fnref) (router : t nat) : t nat :=
  {| opts := opts router; methods := methods router;
     params := params_set key fn (params router); stack := stack router |}.

(** The request-time view of a router: its stack with the layers
    themselves. *)
Definition view (h : heap) (router : t nat) : t Layer.t :=
  {| opts := opts router; methods := methods router;
     params := params router;
     stack := omap (fun l => layers h !! l) (stack router) |}.

(** [Router.prototype.param]. *)
Definition param `{!Layer.impl} (router : nat) (p : string) (middleware : fnref)
    (h : heap) : heap :=
  let h := update_router router (set_param p middleware) h in
  match routers h !! router with
  | Some this =>
      fold_left
        (fun h route => update_layer route (Layer.param p middleware) h)
        (stack this) h
  | None => h
  end.

(** The [opts] argument of [register]; an absent property is [None]. *)
Record register_opts := {
  r_end : option bool;
  r_name : option string;
  r_sensitive : bool;
  r_strict : bool;
  r_prefix : option string;
  r_ignoreCaptures : option bool
}.

(** The options that [register] passes to [new Layer]. *)
Definition layer_options (this : t nat) (o : register_opts) : Layer.options :=
  {| Layer.end_ := match r_end o with Some false => false | _ => true end;
     Layer.opt_name := r_name o;
     Layer.sensitive := r_sensitive o || sensitive (opts this) || false;
     Layer.strict := r_strict o || strict (opts this) || false;
     Layer.prefix :=
       default "" (Js.or_else (Js.or_else (r_prefix o) (prefix (opts this)))
                     (Some ""));
     Layer.ignoreCaptures := r_ignoreCaptures o |}.

(** What [register] does to the new layer before it is pushed: the
    router's prefix, then the router's param handlers in key order. *)
Definition prepare `{!Layer.impl} (this : t nat) (route : Layer.t) : Layer.t :=
  let route :=
    match prefix (opts this) with
    | Some p => if Js.truthy_string p then Layer.setPrefix p route else route
    | None => route
    end in
  fold_left (fun route '(key, fn) => Layer.param key fn route)
    (params this) route.

(** [Router.prototype.register] for one path. *)
Definition register_path `{!Layer.impl} (router : nat) (path : string)
    (methods : list string) (middleware : list fnref) (o : register_opts)
    (h : heap) : heap :=
  match routers h !! router with
  | Some this =>
      let route :=
        Layer.new path methods middleware (layer_options this o) in
      let route := prepare this route in
      let '(l, h) := alloc_layer route h in
      update_router router (push l) h
  | None => h
  end.

(** The [path] argument of [register]: a path or an array of paths. *)
Inductive path_arg :=
| OnePath (p : string)
| ManyPaths (ps : list string).

(** [Router.prototype.register]. *)
Definition register `{!Layer.impl} (router : nat) (path : path_arg)
    (methods : list string) (middleware : list fnref) (o : register_opts)
    (h : heap) : heap :=
  match path with
  | ManyPaths ps =>
      fold_left (fun h p => register_path router p methods middleware o h) ps h
  | OnePath p => register_path router p methods middleware o h
  end.

(** A function object handed to [use], with its [router] property: the
    [dispatch] function of [routes] carries the address of its router. *)
Record fn_object := {
  fn_code : fnref;
  fn_router : option nat
}.

(** The leading argument of [use]: none, a path, or an array of paths
    whose first element is a string. *)
Inductive use_path :=
| NoPath
| Path (p : string)
| Paths (p : string) (ps : list string).

(** The body of [m.router.stack.forEach]: prefix the nested layer in
    place, then push its address on this router's stack. *)
Definition splice_layer `{!Layer.impl} (router : nat) (path : option string)
    (h : heap) (nestedLayer : nat) : heap :=
  let h :=
    match path with
    | Some p =>
        if Js.truthy_string p
        then update_layer nestedLayer (Layer.setPrefix p) h else h
    | None => h
    end in
  let h :=
    match routers h !! router with
    | Some this =>
        match prefix (opts this) with
        | Some p =>
            if Js.truthy_string p
            then update_layer nestedLayer (Layer.setPrefix p) h else h
        | None => h
        end
    | None => h
    end in
  update_router router (push nestedLayer) h.

(** The body of [Object.keys(router.params).forEach]. *)
Definition propagate_param `{!Layer.impl} (router sub : nat) (h : heap)
    (key : string) : heap :=
  match routers h !! router with
  | Some this =>
      match params_get key (params this) with
      | Some fn => param sub key fn h
      | None => h
      end
  | None => h
  end.

(** The pattern that matches every path. *)
Definition wildcard : string := "(.*)".

(** [path || wildcard]. *)
Definition path_or_wildcard (path : option string) : string :=
  match path with
  | Some p => if Js.truthy_string p then p else wildcard
  | None => wildcard
  end.

(** The body of [middleware.forEach] in [use]. *)
Definition use_middleware `{!Layer.impl} (router : nat) (path : option string)
    (hasPath : bool) (h : heap) (m : fn_object) : heap :=
  match fn_router m with
  | Some sub =>
      let nested :=
        match routers h !! sub with
        | Some r => stack r
        | None => []
        end in
      let h := fold_left (splice_layer router path) nested h in
      let keys :=
        match routers h !! router with
        | Some this => map fst (params this)
        | None => []
        end in
      fold_left (propagate_param router sub) keys h
  | None =>
      register router (OnePath (path_or_wildcard path)) [] [fn_code m]
        {| r_end := Some false; r_name := None; r_sensitive := false;
           r_strict := false; r_prefix := None;
           r_ignoreCaptures := Some (negb hasPath) |} h
  end.

(** [Router.prototype.use] once the leading argument is not an array. *)
Definition use_at `{!Layer.impl} (router : nat) (first : option string)
    (middleware : list fn_object) (h : heap) : heap :=
  let hasPath := bool_decide (is_Some first) in
  fold_left (use_middleware router first hasPath) middleware h.

(** [Router.prototype.use]. *)
Definition use `{!Layer.impl} (router : nat) (first : use_path)
    (middleware : list fn_object) (h : heap) : heap :=
  match first with
  | Paths p ps =>
      fold_left (fun h p => use_at router (Some p) middleware h) (p :: ps) h
  | Path p => use_at router (Some p) middleware h
  | NoPath => use_at router None middleware h
  end.

End Router.

(** ** The application: [handleRequest] and [respond] *)

Module Application.

(** What [application.js] takes from outside: [ctx.onerror] of
    [context.js], the table [statuses.empty], [koa-is-json] and
    [JSON.stringify] on a body. *)
Class env := {
  onerror : Js.thrown -> Koa.M;
  statuses_empty : Z -> bool;
  isJSON : Koa.body_value -> bool;
  stringify : Koa.body_value -> string
}.

(** [Buffer.byteLength] of a string, strings being sequences of bytes. *)
Definition byteLength (s : string) : Z := Z.of_nat (String.length s).

(** [String(code)] for a status that may be [undefined]. *)
Definition String_ (code : option Z) : string :=
  match code with
  | Some z => pretty z
  | None => "undefined"
  end.

(** A promise that is resolved: what the composed middleware continues
    with when it is called without [next]. *)
Definition resolved : Koa.M := fun ctx => (ctx, Koa.Resolved).

(** The function [respond]. *)
Definition respond `{!env} : Koa.M := fun ctx =>
  if bool_decide (Koa.respond_flag (Koa.resp ctx) = Some false)
  then (ctx, Koa.Resolved)
  else if negb (Koa.writable (Koa.resp ctx)) then (ctx, Koa.Resolved)
  else
    let body := Koa.body (Koa.resp ctx) in
    let code := Koa.status (Koa.resp ctx) in
    if match code with Some c => statuses_empty c | None => false end then
      let ctx := Koa.set_body Koa.BodyNull ctx in
      (Koa.write (Koa.End_ None) ctx, Koa.Resolved)
    else if bool_decide (Koa.method (Koa.req ctx) = "HEAD") then
      let ctx :=
        if negb (Koa.headersSent (Koa.res ctx)) && isJSON body
        then Koa.set_length (byteLength (stringify body)) ctx
        else ctx in
      (Koa.write (Koa.End_ None) ctx, Koa.Resolved)
    else
      match body with
      | Koa.BodyNull =>
          let body :=
            match Koa.message (Koa.resp ctx) with
            | Some m => if Js.truthy_string m then m else String_ code
            | None => String_ code
            end in
          let ctx :=
            if negb (Koa.headersSent (Koa.res ctx)) then
              Koa.set_length (byteLength body) (Koa.set_type "text" ctx)
            else ctx in
          (Koa.write (Koa.End_ (Some body)) ctx, Koa.Resolved)
      | Koa.BodyBuffer b => (Koa.write (Koa.End_ (Some b)) ctx, Koa.Resolved)
      | Koa.BodyString b => (Koa.write (Koa.End_ (Some b)) ctx, Koa.Resolved)
      | Koa.BodyStream b => (Koa.write (Koa.Pipe b) ctx, Koa.Resolved)
      | Koa.BodyJson _ =>
          let body := stringify body in
          let ctx :=
            if negb (Koa.headersSent (Koa.res ctx))
            then Koa.set_length (byteLength body) ctx else ctx in
          (Koa.write (Koa.End_ (Some body)) ctx, Koa.Resolved)
      end.

(** [handleRequest(ctx, fnMiddleware)]; [fnMiddleware(ctx)] is called
    without [next]. *)
Definition handleRequest `{!env} (fnMiddleware : Koa.middleware) : Koa.M :=
  fun ctx =>
    let ctx := Koa.set_statusCode 404 ctx in
    let handleResponse := respond in
    let ctx := Koa.add_finished_listener ctx in
    Koa.catch_ (Koa.then_ (fnMiddleware resolved) handleResponse) onerror ctx.

(** The request listener returned by [callback], on a context already
    created: [fn = compose(this.middleware)]. *)
Definition callback `{!env, !Koa.code} (middleware : list fnref) : Koa.M :=
  let fn := Koa.compose (map Koa.exec middleware) in
  handleRequest fn.

End Application.

(** ** Redux: [applyMiddleware] *)

Module Redux.

(** Actions and the values that dispatching returns. *)
Inductive data :=
| Undefined
| Num (z : Z)
| Str (s : string)
| Action (type : string) (payload : Z).

Section Effects.

(** [world] is everything outside that code can change (the state of the
    base store, logs); [args] is what [createStore] is called with. *)
Context {world args : Type}.

(** What running a piece of middleware code does, step by step: it
    returns, throws, does something to the world outside (such as calling
    the base store's [dispatch]), or evaluates [dispatch(...args)], which
    reads the variable [dispatch] of [applyMiddleware] and calls what it
    holds.  (A [try]/[catch] inside a middleware is not represented: a
    throw ends the computation.) *)
Inductive eff (R : Type) : Type :=
| Ret (r : R)
| Throw (e : Js.thrown)
| Ext (f : world -> world * (Js.thrown + data)) (k : data -> eff R)
| CallDispatch (a : list data) (k : data -> eff R).
Arguments Ret {R} _.
Arguments Throw {R} _.
Arguments Ext {R} _ _.
Arguments CallDispatch {R} _ _.

Fixpoint bind {A B : Type} (c : eff A) (k : A -> eff B) : eff B :=
  match c with
  | Ret r => k r
  | Throw e => Throw e
  | Ext f k' => Ext f (fun d => bind (k' d) k)
  | CallDispatch a k' => CallDispatch a (fun d => bind (k' d) k)
  end.

(** A dispatch function. *)
Definition dispatcher := list data -> eff data.

(** A property of the store object: a function or a plain value. *)
Inductive field :=
| Fn (f : dispatcher)
| Value (d : data).

(** Calling a property that may be missing or not a function. *)
Definition as_function (o : option field) : dispatcher :=
  match o with
  | Some (Fn f) => f
  | _ => fun _ => Throw (Js.TypeError "dispatch is not a function")
  end.

(** The object [middlewareAPI]. *)
Record API := {
  getState : option field;
  dispatch : dispatcher
}.

(** A middleware [api => next => action => ...]: applying it to the API,
    and applying the result to [next], may both run code. *)
Definition wrapper := dispatcher -> eff dispatcher.
Definition middleware := API -> eff wrapper.

(** Running a computation while the variable [dispatch] holds [var].
    [fuel] bounds the depth of nested calls through the variable; [None]
    means it was not enough. *)
Fixpoint run (fuel : nat) (var : dispatcher) {R : Type} (c : eff R)
    (w : world) {struct fuel} : option (world * (Js.thrown + R)) :=
  (fix go (R : Type) (c : eff R) (w : world) {struct c}
     : option (world * (Js.thrown + R)) :=
     match c with
     | Ret r => Some (w, inr r)
     | Throw e => Some (w, inl e)
     | Ext f k =>
         match f w with
         | (w', inr d) => go R (k d) w'
         | (w', inl e) => Some (w', inl e)
         end
     | CallDispatch a k =>
         match fuel with
         | O => None
         | S fuel' =>
             match run fuel' var (var a) w with
             | Some (w', inr d) => go R (k d) w'
             | Some (w', inl e) => Some (w', inl e)
             | None => None
             end
         end
     end) R c w.

(** [array.map(f)] when calling [f] runs code: left to right. *)
Fixpoint map_eff {A B : Type} (f : A -> eff B) (l : list A) : eff (list B) :=
  match l with
  | [] => Ret []
  | x :: l' => bind (f x) (fun y => bind (map_eff f l') (fun ys => Ret (y :: ys)))
  end.

(** Modelled from the spec: [compose] of [./compose] is not among the
    sources.  It folds a list of transforms into one: the last transform
    is the innermost wrapper around the base function, so it is applied
    first. *)
Fixpoint compose (chain : list wrapper) (next : dispatcher) : eff dispatcher :=
  match chain with
  | [] => Ret next
  | f :: chain' => bind (compose chain' next) f
  end.

(** The first value of the variable [dispatch]. *)
Definition constructing : Js.thrown :=
  Js.Error
    ("Dispatching while constructing your middleware is not allowed. "
     +:+ "Other middleware would not be applied to this dispatch.").

Definition thrower : dispatcher := fun _ => Throw constructing.

(** [{ getState: store.getState, dispatch: (...args) => dispatch(...args) }]. *)
Definition middlewareAPI (store : gmap string field) : API :=
  {| getState := store !! "getState";
     dispatch := fun a => CallDispatch a Ret |}.

(** What [applyMiddleware] leaves behind: the store it returns and the
    last value of its variable [dispatch], which [middlewareAPI.dispatch]
    keeps reading. *)
Record applied := {
  returned : gmap string field;
  variable : dispatcher
}.

(** The code between the two assignments of [dispatch]. *)
Definition construct (middlewares : list middleware)
    (store : gmap string field) : eff dispatcher :=
  bind (map_eff (fun mw => mw (middlewareAPI store)) middlewares)
    (fun chain => compose chain (as_function (store !! "dispatch"))).

(** [applyMiddleware(...middlewares)(createStore)(...args)]. *)
Definition applyMiddleware (middlewares : list middleware)
    (createStore : args -> world -> world * (Js.thrown + gmap string field))
    (a : args) (fuel : nat) (w : world)
    : option (world * (Js.thrown + applied)) :=
  match createStore a w with
  | (w, inl e) => Some (w, inl e)
  | (w, inr store) =>
      let dispatch := thrower in
      match run fuel dispatch (construct middlewares store) w with
      | None => None
      | Some (w, inl e) => Some (w, inl e)
      | Some (w, inr composed) =>
          let dispatch := composed in
          Some (w, inr {| returned := <["dispatch" := Fn dispatch]> store;
                          variable := dispatch |})
      end
  end.

End Effects.

Arguments Ret {world R} _.
Arguments Throw {world R} _.
Arguments Ext {world R} _ _.
Arguments CallDispatch {world R} _ _.
Arguments Fn {world} _.
Arguments Value {world} _.
Arguments eff : clear implicits.
Arguments dispatcher : clear implicits.
Arguments field : clear implicits.
Arguments API : clear implicits.
Arguments wrapper : clear implicits.
Arguments middleware : clear implicits.
Arguments applied : clear implicits.

End Redux.

(** ** The router: construction and prefix *)

Module RouterMore.

Import RouterObject Router.

(** The verbs a router implements when [opts.methods] is not given. *)
Definition default_methods : list string :=
  ["HEAD"; "OPTIONS"; "GET"; "PUT"; "PATCH"; "POST"; "DELETE"].

(** [new Router(opts)]: [methods] is [opts.methods], an array when given;
    the new object gets the next free address. *)
Definition create (o : options) (methods : option (list string)) (h : heap)
    : nat * heap :=
  (length (routers h),
   {| layers := layers h;
      routers :=
        routers h
        ++ [{| opts := o; methods := default default_methods methods;
               params := []; stack := [] |}] |}).

(** [prefix.replace(/\/$/, '')]: a slash that ends the string is removed. *)
Fixpoint strip_slash (s : string) : string :=
  match s with
  | EmptyString => EmptyString
  | String c s' =>
      match s' with
      | EmptyString => if bool_decide (c = "/"%char) then EmptyString else s
      | String _ _ => String c (strip_slash s')
      end
  end.

(** *** Options objects held by several routers

    The constructor keeps the options object that it is handed
    ([this.opts = opts || {}]), so the routers built from one object hold
    the same object, and [prefix] writes into it.  Next to the heap,
    [holds] tells for each router which options object it holds: one of
    the caller, or the one that its own constructor made.  The record of a
    router carries the content of the object that it holds. *)
Inductive options_id :=
| Given (id : nat)
| Own (router : nat).

#[export] Instance options_id_eq_dec : EqDecision options_id.
Proof. solve_decision. Defined.

Record shared := {
  store : heap;
  holds : list options_id
}.

(** The object literal [{}]. *)
Definition empty_options : options :=
  {| prefix := None; sensitive := false; strict := false;
     routerPath := None |}.

(** [new Router(opts)], where [opts] is an object of the caller with its
    content, or is not given. *)
Definition construct (given : option (options_id * options))
    (methods : option (list string)) (s : shared) : nat * shared :=
  let o := from_option snd empty_options given in
  let '(r, h) := create o methods (store s) in
  (r, {| store := h;
         holds := holds s ++ [from_option fst (Own r) given] |}).

(** Router [r] holds the options object of [router]. *)
Definition shares (s : shared) (router r : nat) : bool :=
  bool_decide (r = router)
  || match holds s !! router, holds s !! r with
     | Some a, Some b => bool_decide (a = b)
     | _, _ => false
     end.

(** [opts.prefix = prefix], seen in the record of a router that holds the
    object [opts]. *)
Definition set_prefix (p : string) (router : t nat) : t nat :=
  {| opts :=
       {| prefix := Some p; sensitive := sensitive (opts router);
          strict := strict (opts router);
          routerPath := routerPath (opts router) |};
     methods := methods router; params := params router;
     stack := stack router |}.

(** [this.opts.prefix = prefix]: the write shows in every router that
    holds the object. *)
Definition write_prefix (router : nat) (p : string) (s : shared) : heap :=
  {| layers := layers (store s);
     routers :=
       imap (fun r R => if shares s router r then set_prefix p R else R)
         (routers (store s)) |}.

(** [Router.prototype.prefix]. *)
Definition prefix `{!Layer.impl} (router : nat) (p : string) (s : shared)
    : shared :=
  let p := strip_slash p in
  match routers (store s) !! router with
  | Some this =>
      {| store :=
           fold_left (fun h route => update_layer route (Layer.setPrefix p) h)
             (stack this) (write_prefix router p s);
         holds := holds s |}
  | None => s
  end.

End RouterMore.

(** ** The application: [use] *)

Module ApplicationMore.

(** What [use] is handed: something that is not a function, a function,
    or a generator function. *)
Inductive value :=
| NotFunction
| Function (f : fnref)
| GeneratorFunction (f : fnref).

(** [koa-convert], which wraps a generator function, is a dependency. *)
Class legacy := { convert : fnref -> fnref }.

(** The application: its middleware array, and how many times [use] has
    called [deprecate]; whether a call prints a notice is up to [depd],
    which is not among the sources and reports a call site once. *)
Record app := {
  middleware : list fnref;
  deprecate_calls : nat
}.

(** [use(fn)]: the application after the call, and what was thrown, if
    anything. *)
Definition use `{!legacy} (fn : value) (this : app) : app * option Js.thrown :=
  match fn with
  | NotFunction =>
      (this, Some (Js.TypeError "middleware must be a function!"))
  | GeneratorFunction f =>
      ({| middleware := middleware this ++ [convert f];
          deprecate_calls := S (deprecate_calls this) |}, None)
  | Function f =>
      ({| middleware := middleware this ++ [f];
          deprecate_calls := deprecate_calls this |}, None)
  end.

(** The chained calls [app.use(a).use(b)...]: a throw ends the chain. *)
Fixpoint use_all `{!legacy} (fns : list value) (this : app)
    : app * option Js.thrown :=
  match fns with
  | [] => (this, None)
  | fn :: fns' =>
      match use fn this with
      | (this', Some e) => (this', Some e)
      | (this', None) => use_all fns' this'
      end
  end.

End ApplicationMore.

(** * The vocabulary of the statements *)

Module Spec.

Import RouterObject Router.

(** A layer answers [method]: it declares no method, or declares it. *)
Definition answers (method : string) (l : Layer.t) : Prop :=
  Layer.methods l = [] ∨ method ∈ Layer.methods l.

#[export] Instance answers_dec method l : Decision (answers method l).
Proof. unfold answers. apply _. Defined.

(** What one layer contributes to the chain: its parameter-binding step,
    then its own handlers. *)
Definition contribution (path : string) (layer : Layer.t) : list fn :=
  Bind path layer :: map Handler (Layer.stack layer).

(** The context on which the chain of a matched request starts: [matched]
    and [router] are recorded first. *)
Definition record_match (router : t Layer.t) (ctx : Koa.ctx) : Koa.ctx :=
  let matched :=
    match_ router (request_path router ctx) (Koa.method (Koa.req ctx)) in
  Koa.set_router router
    (Koa.set_matched
       (default [] (Koa.matched (Koa.route ctx)) ++ mr_path matched) ctx).

Definition record_most_specific (layer : Layer.t) (ctx : Koa.ctx) : Koa.ctx :=
  let ctx := Koa.set_matchedRoute (Layer.path layer) ctx in
  if Js.truthy_opt (Layer.name layer)
  then Koa.set_matchedRouteName (Layer.name layer) ctx
  else ctx.

(** The [allowedArr] of [allowedMethods]. *)
Definition allowed_union (layers : list Layer.t) : list string :=
  object_keys (collect_allowed layers).

(** The method names of the layers are names for which [Router.object] is
    the object of the code: none is written as an integer, and none is
    [__proto__]. *)
Definition ordinary_methods (layers : list Layer.t) : Prop :=
  ∀ l m, l ∈ layers → m ∈ Layer.methods l →
         m ≠ "__proto__" ∧ Js.integer_key m = false.

Section Chain.

Context `{!Koa.code, !Layer.impl}.

(** The context that the parameter-binding step of a layer hands on:
    [captures] is computed from the captures so far, [params] from the new
    captures and the params so far, and [routerName] is the layer's
    name. *)
Definition bound (path : string) (layer : Layer.t) (c : Koa.ctx) : Koa.ctx :=
  let captures := Layer.captures layer path (Koa.captures (Koa.route c)) in
  let params :=
    Layer.params layer path captures (Koa.params (Koa.route c)) in
  Koa.set_routerName (Layer.name layer)
    (Koa.set_params params (Koa.set_captures captures c)).

(** What one layer runs: its binding step, which continues with the
    layer's own handlers in the order of its stack, the last of which
    continues with [rest]. *)
Definition run_layer (path : string) (layer : Layer.t) (rest : Koa.M) : Koa.M :=
  Koa.guarded (fun k c => k (bound path layer c))
    (Koa.compose (map Koa.exec (Layer.stack layer)) rest).

(** Handlers that act on the context and then continue: [effect f] is what
    handler [f] does to the context, whatever the flags that the composed
    chain keeps next to it. *)
Definition passing (effect : fnref → Koa.ctx → Koa.ctx) : Prop :=
  (∀ f k c, Koa.exec f k c = k (effect f c))
  ∧ ∀ f g c,
      effect f (Koa.with_continued g c) = Koa.with_continued g (effect f c).

(** The context after the layers of a list have run one after the other,
    each with its binding step first and then its handlers in order. *)
Definition after_layer (effect : fnref → Koa.ctx → Koa.ctx) (path : string)
    (c : Koa.ctx) (layer : Layer.t) : Koa.ctx :=
  fold_left (fun c f => effect f c) (Layer.stack layer) (bound path layer c).

Definition after_layers (effect : fnref → Koa.ctx → Koa.ctx) (path : string)
    (layers : list Layer.t) (c : Koa.ctx) : Koa.ctx :=
  fold_left (after_layer effect path) layers c.

(** What a function of the chain does to the context before it
    continues, when the handlers are passing ones. *)
Definition step (effect : fnref → Koa.ctx → Koa.ctx) (f : fn)
    : Koa.ctx → Koa.ctx :=
  match f with
  | Bind path layer => bound path layer
  | Handler f => effect f
  end.

(** The flags of [n] more functions of a chain that have continued. *)
Definition continued_by (n : nat) : Koa.ctx → Koa.ctx :=
  Koa.with_continued (fun flags => flags ++ replicate n true).

End Chain.

Section Layers.

Context `{!Layer.impl}.

(** Altering the layers at the addresses of a list, one after the other. *)
Definition alter_all (f : Layer.t → Layer.t) (ls : list nat)
    (L : list Layer.t) : list Layer.t :=
  fold_left (fun L l => alter f l L) ls L.

(** The two prefixes a spliced layer receives: the mount path when it is a
    non-empty string, then the mounting router's prefix when it has one. *)
Definition maybe_prefix (p : option string) (layer : Layer.t) : Layer.t :=
  match p with
  | Some p => if Js.truthy_string p then Layer.setPrefix p layer else layer
  | None => layer
  end.

Definition mount_prefixes (path : option string) (this : t nat)
    (layer : Layer.t) : Layer.t :=
  maybe_prefix (prefix (opts this)) (maybe_prefix path layer).

Definition push_all (ls : list nat) (router : t nat) : t nat :=
  {| opts := opts router; methods := methods router;
     params := params router; stack := stack router ++ ls |}.



End Layers.

(** The response may be written: [ctx.respond] is not [false] and the
    context is writable. *)
Definition may_respond (ctx : Koa.ctx) : Prop :=
  Koa.respond_flag (Koa.resp ctx) ≠ Some false
  ∧ Koa.writable (Koa.resp ctx) = true.

(** How the three outcomes of a first computation continue. *)
Definition continue_with {world A B : Type}
    (o : option (world * (Js.thrown + A)))
    (k : A → world → option (world * (Js.thrown + B)))
    : option (world * (Js.thrown + B)) :=
  match o with
  | Some (w, inr a) => k a w
  | Some (w, inl e) => Some (w, inl e)
  | None => None
  end.

End Spec.

(** * A sample application

    A small implementation of the layer interface, handlers that leave a
    trace, and the router of the specification's example: a mount at
    [/admin] followed by [GET /admin/users]. *)

Module Sample.

Import RouterObject.

(** A matcher for literal paths: the whole path when [end] is set, a
    prefix of it otherwise.  The constructor below records the parameter
    names of a path and the methods as the constructor of a layer does
    ([HEAD] comes with [GET]), so that [param] has layers to attach to. *)
Definition compile (p : string) (end_ : bool) : string → bool :=
  fun path =>
    if end_ then bool_decide (path = p)
    else bool_decide (p = Router.wildcard) || String.prefix p path.

(** The names of the parameters of a path: what follows a colon, up to
    the next slash or colon. *)
Definition finished (current : option string) : list string :=
  match current with
  | Some name => [name]
  | None => []
  end.

Fixpoint param_names_from (s : string) (current : option string)
    : list string :=
  match s with
  | EmptyString => finished current
  | String c s' =>
      if bool_decide (c = ":"%char)
      then finished current ++ param_names_from s' (Some EmptyString)
      else if bool_decide (c = "/"%char)
      then finished current ++ param_names_from s' None
      else
        match current with
        | Some name =>
            param_names_from s' (Some (name +:+ String c EmptyString))
        | None => param_names_from s' None
        end
  end.

Definition param_names (p : string) : list string := param_names_from p None.

(** [method.toUpperCase()] on ASCII names. *)
Definition upper_char (c : ascii) : ascii :=
  let n := nat_of_ascii c in
  if (Nat.leb 97 n && Nat.leb n 122)%bool then ascii_of_nat (n - 32) else c.

Fixpoint toUpperCase (s : string) : string :=
  match s with
  | EmptyString => EmptyString
  | String c s' => String (upper_char c) (toUpperCase s')
  end.

(** The methods of a new layer: each one is pushed in capitals, and [HEAD]
    is put in front whenever [GET] has just been pushed. *)
Definition layer_methods (methods : list string) : list string :=
  fold_left
    (fun acc method =>
       let acc := acc ++ [toUpperCase method] in
       if bool_decide (toUpperCase method = "GET") then "HEAD" :: acc else acc)
    methods [].

Definition new (p : string) (methods : list string) (middleware : list fnref)
    (o : Layer.options) : Layer.t :=
  {| Layer.path := p; Layer.methods := layer_methods methods;
     Layer.name := Layer.opt_name o; Layer.stack := middleware;
     Layer.paramNames := param_names p; Layer.opts := o;
     Layer.regexp := compile p (Layer.end_ o) |}.

(** [setPrefix] changes a layer that has a path: the path, its parameter
    names and its matcher. *)
Definition setPrefix (pre : string) (l : Layer.t) : Layer.t :=
  if Js.truthy_string (Layer.path l) then
    {| Layer.path := pre +:+ Layer.path l; Layer.methods := Layer.methods l;
       Layer.name := Layer.name l; Layer.stack := Layer.stack l;
       Layer.paramNames := param_names (pre +:+ Layer.path l);
       Layer.opts := Layer.opts l;
       Layer.regexp :=
         compile (pre +:+ Layer.path l) (Layer.end_ (Layer.opts l)) |}
  else l.

Definition param (key : string) (fn : fnref) (l : Layer.t) : Layer.t :=
  {| Layer.path := Layer.path l; Layer.methods := Layer.methods l;
     Layer.name := Layer.name l;
     Layer.stack :=
       if bool_decide (key ∈ Layer.paramNames l)
       then fn :: Layer.stack l else Layer.stack l;
     Layer.paramNames := Layer.paramNames l; Layer.opts := Layer.opts l;
     Layer.regexp := Layer.regexp l |}.

#[export] Instance layer_impl : Layer.impl :=
  {| Layer.new := new;
     Layer.setPrefix := setPrefix;
     Layer.param := param;
     Layer.captures := fun l path prior =>
       if default false (Layer.ignoreCaptures (Layer.opts l))
       then default [] prior else [];
     Layer.params := fun l path captures prior => default ∅ prior;
     Layer.url := fun l args => inr (Layer.path l) |}.

(** Handler [f] appends its number to [ctx.state.trace] and continues. *)
Definition trace (f : fnref) (c : Koa.ctx) : Koa.ctx :=
  Koa.set_state "trace"
    (default "" (Koa.state c !! "trace") +:+ pretty f +:+ ";") c.

#[export] Instance handler_code : Koa.code :=
  {| Koa.exec := fun f next c => next (trace f c) |}.

Definition plain (end_ : bool) (name : option string) : Layer.options :=
  {| Layer.end_ := end_; Layer.opt_name := name; Layer.sensitive := false;
     Layer.strict := false; Layer.prefix := "";
     Layer.ignoreCaptures := None |}.

Definition admin : Layer.t := new "/admin" [] [1%nat] (plain false None).

Definition users : Layer.t :=
  new "/admin/users" ["GET"] [2%nat] (plain true (Some "users")).

Definition no_options : options :=
  {| prefix := None; sensitive := false; strict := false;
     routerPath := None |}.

Definition verbs : list string :=
  ["HEAD"; "OPTIONS"; "GET"; "PUT"; "PATCH"; "POST"; "DELETE"].

Definition router : t Layer.t :=
  {| opts := no_options; methods := verbs; params := [];
     stack := [admin; users] |}.

(** A fresh context for a request. *)
Definition request (method path : string) : Koa.ctx :=
  {| Koa.req :=
       {| Koa.method := method; Koa.path := path; Koa.routerPath := None |};
     Koa.route :=
       {| Koa.matched := None; Koa.router := None;
          Koa._matchedRoute := None; Koa._matchedRouteName := None;
          Koa.captures := None; Koa.params := None;
          Koa.routerName := None |};
     Koa.resp :=
       {| Koa.status := None; Koa.body := Koa.BodyNull; Koa.header := ∅;
          Koa.message := None; Koa.type := None; Koa.length := None;
          Koa.respond_flag := None; Koa.writable := true |};
     Koa.res :=
       {| Koa.statusCode := 200; Koa.headersSent := false;
          Koa.finished_listeners := 0; Koa.written := [] |};
     Koa.state := ∅; Koa.continued := [] |}.

Import Router.

(** [OPTIONS] and [DELETE] on a path that has only [GET]. *)
Definition quiet : allowed_options :=
  {| throw := false; notImplemented := None; methodNotAllowed := None |}.

Definition throwing : allowed_options :=
  {| throw := true; notImplemented := None; methodNotAllowed := None |}.

Definition answer (o : allowed_options) (method path : string)
    : Koa.ctx * Koa.completion :=
  allowedMethods router o (routes router Application.resolved)
    (request method path).

(** The routers of the comment in [use]: [posts] has two routes, and
    [forums], which has a prefix and a handler for the parameter [pid],
    mounts its dispatch function at [/forums]. *)
Definition post_index : Layer.t := new "/" ["GET"] [3%nat] (plain true None).

Definition post_show : Layer.t :=
  new "/:pid" ["GET"] [4%nat] (plain true (Some "post")).

Definition forums : t nat :=
  {| opts :=
       {| prefix := Some "/api"; sensitive := false; strict := false;
          routerPath := None |};
     methods := verbs; params := [("pid", 9%nat)]; stack := [] |}.

Definition posts : t nat :=
  {| opts := no_options; methods := verbs; params := [];
     stack := [0%nat; 1%nat] |}.

Definition before : heap :=
  {| layers := [post_index; post_show]; routers := [forums; posts] |}.

(** [posts.routes()]. *)
Definition posts_routes : fn_object :=
  {| fn_code := 5%nat; fn_router := Some 1%nat |}.

Definition after : heap :=
  use 0%nat (Path "/forums") [posts_routes] before.

(** A plain middleware, without and with a path. *)
Definition logger : fn_object := {| fn_code := 6%nat; fn_router := None |}.

(** What the application takes from outside. *)
#[export] Instance sample_env : Application.env :=
  {| Application.onerror := fun e c =>
       (Koa.set_state "error" "reported" c, Koa.Resolved);
     Application.statuses_empty := fun code =>
       bool_decide (code = 204) || bool_decide (code = 205)
       || bool_decide (code = 304);
     Application.isJSON := fun b =>
       match b with Koa.BodyJson _ => true | _ => false end;
     Application.stringify := fun b =>
       match b with Koa.BodyJson v => v | _ => "null" end |}.

End Sample.

(** ** A store with two middlewares *)

Module SampleStore.

Import Redux.

(** The world is the list of the actions that reached the base store. *)
Definition reached := list (list data).

Definition base_dispatch : dispatcher reached :=
  fun a => Ext (fun w => (w ++ [a], inr (default Undefined (head a)))) Ret.

(** [getState] tells how many actions have reached the store. *)
Definition base_getState : dispatcher reached :=
  fun _ => Ext (fun w => (w, inr (Num (Z.of_nat (length w))))) Ret.

Definition base_store : gmap string (field reached) :=
  {[ "dispatch" := Fn base_dispatch;
     "getState" := Fn base_getState;
     "subscribe" := Value (Str "subscribe") ]}.

Definition createStore (a : unit) (w : reached)
    : reached * (Js.thrown + gmap string (field reached)) :=
  (w, inr base_store).

(** A middleware that sends [Num n], for positive [n], through the whole
    chain again as [Num (n - 1)] before it passes it on. *)
Definition countdown : middleware reached := fun api =>
  Ret (fun next => Ret (fun a =>
    match a with
    | [Num n] =>
        if 0 <? n then bind (dispatch api [Num (n - 1)]) (fun _ => next a)
        else next a
    | _ => next a
    end)).

(** A middleware that marks what passes. *)
Definition mark : middleware reached := fun api =>
  Ret (fun next => Ret (fun a => next (Str "marked" :: a))).

(** A middleware that dispatches as soon as it is given the API. *)
Definition hasty : middleware reached := fun api =>
  bind (dispatch api [Str "early"]) (fun _ => Ret (fun next => Ret next)).

Definition enhanced : option (reached * (Js.thrown + applied reached)) :=
  applyMiddleware [countdown; mark] createStore tt 1 [].

Definition enhanced_dispatch : dispatcher reached :=
  match enhanced with
  | Some (_, inr res) => variable res
  | _ => thrower
  end.

Definition enhanced_store : applied reached :=
  {| returned := <["dispatch" := Fn enhanced_dispatch]> base_store;
     variable := enhanced_dispatch |}.

End SampleStore.

(** * The vocabulary of the further statements *)

Module SpecMore.

Import RouterObject Router.

(** A router that has a given stack. *)
Definition with_stack (router : t Layer.t) (layers : list Layer.t) : t Layer.t :=
  {| opts := opts router; methods := methods router; params := params router;
     stack := layers |}.

(** The paths that a [path] argument of [register] lists. *)
Definition listed (path : path_arg) : list string :=
  match path with
  | OnePath p => [p]
  | ManyPaths ps => ps
  end.

(** The paths under which [use] mounts: the one given, each of the array,
    or none. *)
Definition mounts (first : use_path) : list (option string) :=
  match first with
  | NoPath => [None]
  | Path p => [Some p]
  | Paths p ps => map Some (p :: ps)
  end.

(** The options with which [use] registers a plain middleware. *)
Definition use_opts (hasPath : bool) : register_opts :=
  {| r_end := Some false; r_name := None; r_sensitive := false;
     r_strict := false; r_prefix := None;
     r_ignoreCaptures := Some (negb hasPath) |}.

(** The layer that [use] builds for a plain middleware mounted at [path]
    on the router [this]. *)
Definition mounted `{!Layer.impl} (this : t nat) (path : option string)
    (m : fn_object) : Layer.t :=
  prepare this
    (Layer.new (path_or_wildcard path) [] [fn_code m]
       (layer_options this (use_opts (bool_decide (is_Some path))))).

(** How many times a stack holds an address. *)
Definition occurrences (l : nat) (ls : list nat) : nat :=
  length (filter (fun x => x = l) ls).

(** The records of the routers that hold one options object carry the
    same options. *)
Definition coherent (s : RouterMore.shared) : Prop :=
  ∀ r r' R R',
    RouterMore.shares s r r' = true →
    routers (RouterMore.store s) !! r = Some R →
    routers (RouterMore.store s) !! r' = Some R' →
    opts R = opts R'.

(** Every address of a router's stack is the address of a layer. *)
Definition stack_in_heap (h : heap) (router : t nat) : Prop :=
  ∀ l, l ∈ stack router → (l < length (layers h))%nat.

(** [respond] calls [JSON.stringify], which throws on some values: for a
    [HEAD] request with a JSON body when the headers are not sent, and
    otherwise for a body that is none of [null], a string, a buffer and a
    stream; never when the status has no body. *)
Definition serialises `{!Application.env} (ctx : Koa.ctx) : bool :=
  if match Koa.status (Koa.resp ctx) with
     | Some code => Application.statuses_empty code
     | None => false
     end
  then false
  else if bool_decide (Koa.method (Koa.req ctx) = "HEAD")
  then negb (Koa.headersSent (Koa.res ctx))
       && Application.isJSON (Koa.body (Koa.resp ctx))
  else match Koa.body (Koa.resp ctx) with
       | Koa.BodyJson _ => true
       | _ => false
       end.

(** What [use] of the application pushes for a value, when it pushes. *)
Definition pushed `{!ApplicationMore.legacy} (v : ApplicationMore.value)
    : option fnref :=
  match v with
  | ApplicationMore.NotFunction => None
  | ApplicationMore.Function f => Some f
  | ApplicationMore.GeneratorFunction f => Some (ApplicationMore.convert f)
  end.

(** Whether a value is a generator function. *)
Definition is_generator (v : ApplicationMore.value) : bool :=
  match v with
  | ApplicationMore.GeneratorFunction _ => true
  | _ => false
  end.

(** A redux middleware of the usual shape [api => next => action => ...],
    in which nothing runs before an action is dispatched. *)
Definition staged {world : Type}
    (f : Redux.API world → Redux.dispatcher world → Redux.dispatcher world)
    : Redux.middleware world :=
  fun api => Redux.Ret (fun next => Redux.Ret (f api next)).

End SpecMore.

(** * Further sample data *)

Module SampleMore.

Import RouterObject Router Sample.

(** A router that has only the mount at [/admin]. *)
Definition mount_only : t Layer.t :=
  {| opts := no_options; methods := verbs; params := []; stack := [admin] |}.

(** The heap of the sample with a third router, which has no prefix, no
    param handler and no layer. *)
Definition bare : t nat :=
  {| opts := no_options; methods := verbs; params := []; stack := [] |}.

Definition three : heap :=
  {| layers := [post_index; post_show]; routers := [forums; posts; bare] |}.

Definition tracer : fn_object := {| fn_code := 8%nat; fn_router := None |}.

(** Contexts for [respond]. *)
Definition with_body (b : Koa.body_value) (c : Koa.ctx) : Koa.ctx :=
  Koa.set_body b c.

Definition sent_headers (c : Koa.ctx) : Koa.ctx :=
  Koa.with_res
    (fun r =>
       {| Koa.statusCode := Koa.statusCode r; Koa.headersSent := true;
          Koa.finished_listeners := Koa.finished_listeners r;
          Koa.written := Koa.written r |}) c.

(** Two routers built from one options object of the caller, and a
    third one built without options; the first has the route
    [GET /users]. *)
Definition nothing : RouterMore.shared :=
  {| RouterMore.store := {| layers := []; routers := [] |};
     RouterMore.holds := [] |}.

Definition twins : RouterMore.shared :=
  let given := Some (RouterMore.Given 0, no_options) in
  let s := (RouterMore.construct given None nothing).2 in
  let s := (RouterMore.construct given None s).2 in
  let s := (RouterMore.construct None None s).2 in
  {| RouterMore.store :=
       register 0 (OnePath "/users") ["GET"] [1%nat]
         {| r_end := None; r_name := None; r_sensitive := false;
            r_strict := false; r_prefix := None; r_ignoreCaptures := None |}
         (RouterMore.store s);
     RouterMore.holds := RouterMore.holds s |}.

(** The first of them. *)
Definition twin : t nat :=
  {| opts := no_options; methods := RouterMore.default_methods; params := [];
     stack := [0%nat] |}.

(** [koa-convert] on the sample's handlers: the converted form of handler
    [f] is handler [f + 100]. *)
#[export] Instance sample_legacy : ApplicationMore.legacy :=
  {| ApplicationMore.convert := fun f => (f + 100)%nat |}.

Definition fresh_app : ApplicationMore.app :=
  {| ApplicationMore.middleware := []; ApplicationMore.deprecate_calls := 0%nat |}.

End SampleMore.

(** * Properties *)

(** ** JavaScript operators *)

Section JsFacts.

Lemma indexOf_from_range x l i :
  0 <= i -> Js.indexOf_from x l i = -1 \/ i <= Js.indexOf_from x l i.
Proof.
  revert i. induction l as [|y l IH]; intros i Hi; simpl; [by left|].
  case_bool_decide; [right; lia|].
  destruct (IH (i + 1)) as [->|]; [lia|by left|right; lia].
Qed.

Lemma indexOf_from_miss x l i :
  0 <= i -> Js.indexOf_from x l i = -1 <-> x ∉ l.
Proof.
  revert i. induction l as [|y l IH]; intros i Hi; simpl.
  - split; [intros _; apply not_elem_of_nil|done].
  - case_bool_decide as Hy.
    + subst y. split; [lia|]. intros []. by left.
    + rewrite IH by lia. rewrite not_elem_of_cons.
      split; [intros ?; split; [congruence|done]|by intros [_ ?]].
Qed.

(** [~l.indexOf(x)] is truthy exactly when [x] occurs in [l]. *)
Lemma truthy_bitnot_indexOf l x :
  Js.truthy_num (Js.bitnot (Js.indexOf l x)) = bool_decide (x ∈ l).
Proof.
  unfold Js.truthy_num, Js.bitnot, Js.indexOf.
  pose proof (indexOf_from_miss x l 0 ltac:(lia)) as Hm.
  case_bool_decide as Hin.
  - apply negb_true_iff, Z.eqb_neq. unfold Z.lnot.
    intros Heq. apply Hm; [lia|done].
  - apply negb_false_iff, Z.eqb_eq. apply Hm in Hin. by rewrite Hin.
Qed.

Lemma truthy_length_nonempty {A} (l : list A) :
  Js.truthy_num (Z.of_nat (length l)) = bool_decide (l ≠ []).
Proof. destruct l; done. Qed.

End JsFacts.

(** ** [Router.prototype.match] *)

Section MatchFacts.

Import Spec.
Import RouterObject Router.

Variables path method : string.

Lemma method_test (l : Layer.t) :
  (Z.of_nat (length (Layer.methods l)) =? 0)
  || Js.truthy_num (Js.bitnot (Js.indexOf (Layer.methods l) method))
  = bool_decide (answers method l).
Proof.
  rewrite truthy_bitnot_indexOf.
  destruct (decide (answers method l)) as [Ha|Ha].
  - rewrite (bool_decide_true (answers method l)) by done.
    destruct Ha as [->|Hin]; [done|].
    rewrite (bool_decide_true _ Hin). apply orb_true_r.
  - rewrite (bool_decide_false (answers method l)) by done.
    unfold answers in Ha. apply orb_false_iff; split.
    + apply Z.eqb_neq. intros Hlen. apply Ha. left.
      destruct (Layer.methods l); [done|discriminate].
    + apply bool_decide_false. tauto.
Qed.

Lemma match_fold (layers : list Layer.t) (acc : MatchResult) :
  let m := fold_left (match_step path method) layers acc in
  let hits := filter (λ l, Layer.match_ l path) layers in
  mr_path m = mr_path acc ++ hits
  ∧ mr_pathAndMethod m = mr_pathAndMethod acc ++ filter (answers method) hits
  ∧ (mr_route m = true ↔
       mr_route acc = true
       ∨ ∃ l, l ∈ filter (answers method) hits ∧ Layer.methods l ≠ []).
Proof.
  revert acc. induction layers as [|l layers IH]; intros acc; simpl.
  - rewrite !app_nil_r. split_and!; [done..|]. split; [by left|].
    intros [?|(l & Hl & _)]; [done|]. by apply elem_of_nil in Hl.
  - destruct (IH (match_step path method acc l)) as (IH1 & IH2 & IH3).
    rewrite IH1, IH2, IH3. clear IH IH1 IH2 IH3.
    unfold match_step. rewrite method_test, truthy_length_nonempty.
    rewrite filter_cons.
    destruct (Layer.match_ l path) eqn:Hm; simpl; [|done].
    rewrite filter_cons. destruct (decide (answers method l)) as [Ha|Ha].
    2: { rewrite (bool_decide_false _ Ha). simpl.
         by rewrite <- !app_assoc. }
    rewrite (bool_decide_true _ Ha).
    destruct (decide (Layer.methods l ≠ [])) as [Hne|He].
    + rewrite (bool_decide_true _ Hne). simpl. rewrite <- !app_assoc.
      split_and!; [done..|]. split; intros _.
      * right. exists l. split; [left|done].
      * by left.
    + rewrite (bool_decide_false _ He). simpl. rewrite <- !app_assoc.
      split_and!; [done..|]. apply dec_stable in He.
      split; (intros [?|(l' & Hl' & Hn)]; [by left|]); right; exists l'.
      * split; [by right|done].
      * split; [|done]. apply elem_of_cons in Hl' as [->|]; done.
Qed.

Lemma route_found_iff (router : t Layer.t) :
  mr_route (match_ router path method) = true ↔
  ∃ l, l ∈ mr_pathAndMethod (match_ router path method)
       ∧ Layer.methods l ≠ [].
Proof.
  unfold match_.
  destruct (match_fold (stack router)
              {| mr_path := []; mr_pathAndMethod := []; mr_route := false |})
    as (_ & Hpm & Hr).
  simpl in *. rewrite Hpm, Hr. split; [intros [?|?]; done|by right].
Qed.

(** C1. [match] scans the stack in registration order: [pathMatches] is the
    stack filtered by [match(path)], [pathAndMethodMatches] is [pathMatches]
    filtered by "declares no method, or declares the request method", and
    [routeFound] holds exactly when some layer of [pathAndMethodMatches]
    declares a method. *)
Theorem match_scans_in_registration_order (router : t Layer.t) :
  let matched := match_ router path method in
  mr_path matched = filter (λ l, Layer.match_ l path) (stack router)
  ∧ mr_pathAndMethod matched = filter (answers method) (mr_path matched)
  ∧ (mr_route matched = true ↔
       ∃ l, l ∈ mr_pathAndMethod matched ∧ Layer.methods l ≠ []).
Proof.
  unfold match_.
  destruct (match_fold (stack router)
              {| mr_path := []; mr_pathAndMethod := []; mr_route := false |})
    as (Hp & Hpm & Hr).
  simpl in *. rewrite Hp, Hpm. split_and!; [done..|].
  rewrite Hr. split; [intros [?|?]; done|by right].
Qed.

(** Membership in the two lists, read off the theorem above. *)
Corollary match_membership (router : t Layer.t) (l : Layer.t) :
  let matched := match_ router path method in
  (l ∈ mr_path matched ↔ l ∈ stack router ∧ Layer.match_ l path = true)
  ∧ (l ∈ mr_pathAndMethod matched ↔ l ∈ mr_path matched ∧ answers method l).
Proof.
  destruct (match_fold (stack router)
              {| mr_path := []; mr_pathAndMethod := []; mr_route := false |})
    as (Hp & Hpm & _).
  simpl in *. unfold match_. rewrite Hpm, Hp.
  rewrite !list_elem_of_filter, Is_true_true. tauto.
Qed.

Lemma route_found_last (router : t Layer.t) :
  mr_route (match_ router path method) = true →
  is_Some (last (mr_pathAndMethod (match_ router path method))).
Proof.
  intros Hr.
  apply (route_found_iff router) in Hr.
  destruct Hr as (l & Hl & _).
  destruct (last _) eqn:E; [by eexists|].
  apply last_None in E. rewrite E in Hl. by apply elem_of_nil in Hl.
Qed.

End MatchFacts.

(** ** The dispatch function of [routes] *)

Section DispatchFacts.

Import Spec.
Import RouterObject Router.

Context `{!Koa.code, !Layer.impl}.

Lemma layerChain_from (path : string) (layers : list Layer.t) (memo : list fn) :
  fold_left
    (fun memo layer =>
       (memo ++ [Bind path layer]) ++ map Handler (Layer.stack layer))
    layers memo
  = memo ++ concat (map (contribution path) layers).
Proof.
  revert memo. induction layers as [|l layers IH]; intros memo; simpl.
  - by rewrite app_nil_r.
  - rewrite IH. unfold contribution. by rewrite <- !app_assoc.
Qed.

Lemma layerChain_concat (path : string) (layers : list Layer.t) :
  layerChain path layers = concat (map (contribution path) layers).
Proof. unfold layerChain. by rewrite layerChain_from. Qed.

Lemma layerChain_app (path : string) (xs ys : list Layer.t) :
  layerChain path (xs ++ ys) = layerChain path xs ++ layerChain path ys.
Proof. by rewrite !layerChain_concat, map_app, concat_app. Qed.

Lemma compose_app (hs ks : list Koa.middleware) (next : Koa.M) :
  Koa.compose (hs ++ ks) next = Koa.compose hs (Koa.compose ks next).
Proof. unfold Koa.compose. by rewrite foldr_app. Qed.

Lemma routes_unfold (router : t Layer.t) (next : Koa.M) (ctx : Koa.ctx) :
  let path := request_path router ctx in
  let matched := match_ router path (Koa.method (Koa.req ctx)) in
  routes router next ctx =
    if mr_route matched then
      match last (mr_pathAndMethod matched) with
      | Some layer =>
          Koa.compose (map call (layerChain path (mr_pathAndMethod matched)))
            next (record_most_specific layer (record_match router ctx))
      | None =>
          (record_match router ctx,
           Koa.Rejected
             (Js.TypeError "Cannot read property 'path' of undefined"))
      end
    else next (record_match router ctx).
Proof.
  unfold routes, record_match, record_most_specific. simpl.
  destruct (Koa.matched (Koa.route ctx)); simpl;
    destruct (mr_route _); simpl; try done;
    destruct (last _); done.
Qed.

(** The chain, layer by layer. *)
Lemma compose_layers (path : string) (layers : list Layer.t) (next : Koa.M) :
  Koa.compose (map call (layerChain path layers)) next
  = foldr (run_layer path) next layers.
Proof.
  rewrite layerChain_concat.
  induction layers as [|l layers IH]; simpl; [done|].
  rewrite map_app, compose_app, IH. unfold run_layer, contribution. simpl.
  unfold Koa.compose at 1. simpl. f_equal.
  unfold Koa.compose. f_equal. rewrite map_map. by apply map_ext.
Qed.

Lemma with_continued_id (c : Koa.ctx) :
  Koa.with_continued (fun _ => Koa.continued c) c = c.
Proof. by destruct c. Qed.

Lemma with_continued_twice (f g : list bool → list bool) (c : Koa.ctx) :
  Koa.with_continued f (Koa.with_continued g c)
  = Koa.with_continued (fun flags => f (g flags)) c.
Proof. done. Qed.

Lemma with_continued_ext (f g : list bool → list bool) (c : Koa.ctx) :
  f (Koa.continued c) = g (Koa.continued c) →
  Koa.with_continued f c = Koa.with_continued g c.
Proof. unfold Koa.with_continued. by intros ->. Qed.

Section Passing.

Variable effect : fnref → Koa.ctx → Koa.ctx.
Hypothesis Hpassing : passing effect.

Lemma call_step (x : fn) (k : Koa.M) (c : Koa.ctx) :
  call x k c = k (step effect x c).
Proof. destruct x as [p l|f]; [done|]. apply Hpassing. Qed.

Lemma step_commutes (x : fn) (g : list bool → list bool) (c : Koa.ctx) :
  step effect x (Koa.with_continued g c)
  = Koa.with_continued g (step effect x c).
Proof. destruct x as [p l|f]; [done|]. apply Hpassing. Qed.

Lemma step_continued (x : fn) (c : Koa.ctx) :
  Koa.continued (step effect x c) = Koa.continued c.
Proof.
  assert (c = Koa.with_continued (fun _ => Koa.continued c)
                (Koa.with_continued (fun _ => []) c)) as Hc
    by (by destruct c).
  rewrite Hc at 1. by rewrite step_commutes.
Qed.

Lemma steps_commute (chain : list fn) (g : list bool → list bool)
    (c : Koa.ctx) :
  fold_left (fun c x => step effect x c) chain (Koa.with_continued g c)
  = Koa.with_continued g (fold_left (fun c x => step effect x c) chain c).
Proof.
  revert c. induction chain as [|x chain IH]; intros c; simpl; [done|].
  by rewrite step_commutes, IH.
Qed.

Lemma steps_continued (chain : list fn) (c : Koa.ctx) :
  Koa.continued (fold_left (fun c x => step effect x c) chain c)
  = Koa.continued c.
Proof.
  revert c. induction chain as [|x chain IH]; intros c; simpl; [done|].
  by rewrite IH, step_continued.
Qed.

Lemma compose_passing (chain : list fn) (next : Koa.M) (c : Koa.ctx) :
  Koa.compose (map call chain) next c
  = next (continued_by (length chain)
            (fold_left (fun c x => step effect x c) chain c)).
Proof.
  revert c. induction chain as [|x chain IH]; intros c; simpl.
  - f_equal. unfold continued_by. simpl.
    rewrite <- (with_continued_id c) at 1. apply with_continued_ext.
    by rewrite app_nil_r.
  - unfold Koa.compose. simpl. unfold Koa.guarded at 1.
    rewrite call_step, step_commutes. unfold Koa.once.
    assert (Koa.continued
              (Koa.with_continued (fun flags => flags ++ [false])
                 (step effect x c))
            = Koa.continued c ++ [false]) as Hflags.
    { simpl. by rewrite step_continued. }
    rewrite Hflags, lookup_app_r by done.
    rewrite Nat.sub_diag. simpl.
    fold (Koa.compose (map call chain) next). rewrite IH.
    rewrite with_continued_twice, steps_commute. f_equal.
    unfold continued_by. rewrite with_continued_twice.
    apply with_continued_ext.
    rewrite steps_continued, step_continued.
    rewrite insert_app_r_alt by done. rewrite Nat.sub_diag. simpl.
    by rewrite <- app_assoc.
Qed.

Lemma steps_layers (path : string) (layers : list Layer.t) (c : Koa.ctx) :
  fold_left (fun c x => step effect x c) (layerChain path layers) c
  = after_layers effect path layers c.
Proof.
  rewrite layerChain_concat. unfold after_layers. revert c.
  induction layers as [|l layers IH]; intros c; simpl; [done|].
  rewrite fold_left_app, IH. f_equal. unfold after_layer.
  generalize (bound path l c). induction (Layer.stack l) as [|f fs IHf];
    intros c'; simpl; [done|]. apply IHf.
Qed.

End Passing.

(** C2. For a matched request [dispatch] runs the composed chain on the
    context in which it has recorded [matched], [router] and the most
    specific layer, and which is otherwise the request's: request,
    response, state, and the captures, params and router name so far.  The
    chain is the fold over [pathAndMethodMatches] in match order: each
    layer contributes its binding step and then its own handlers.  Running
    it is running the layers one after the other: the binding step of a
    layer sets [ctx.captures] from the captures so far, [ctx.params] from
    these captures and the params so far, and [ctx.routerName] to the
    layer's name, and continues with the layer's handlers in the order of
    its stack, the last of which continues with the later layers, and the
    last layer with the caller's [next].  With handlers that act on the
    context and continue, [next] receives the context on which the layers
    have acted in match order. *)
Theorem chain_follows_match_order
    (router : t Layer.t) (next : Koa.M) (ctx : Koa.ctx) :
  let path := request_path router ctx in
  let matched := match_ router path (Koa.method (Koa.req ctx)) in
  let layers := mr_pathAndMethod matched in
  let chain := layerChain path layers in
  mr_route matched = true →
  ∃ layer,
    last layers = Some layer
    ∧ let ctx0 := record_most_specific layer (record_match router ctx) in
      routes router next ctx = Koa.compose (map call chain) next ctx0
      ∧ (Koa.req ctx0 = Koa.req ctx ∧ Koa.resp ctx0 = Koa.resp ctx
         ∧ Koa.res ctx0 = Koa.res ctx ∧ Koa.state ctx0 = Koa.state ctx
         ∧ Koa.continued ctx0 = Koa.continued ctx)
      ∧ (Koa.captures (Koa.route ctx0) = Koa.captures (Koa.route ctx)
         ∧ Koa.params (Koa.route ctx0) = Koa.params (Koa.route ctx)
         ∧ Koa.routerName (Koa.route ctx0) = Koa.routerName (Koa.route ctx))
      ∧ chain = concat (map (contribution path) layers)
      ∧ Koa.compose (map call chain) next = foldr (run_layer path) next layers
      ∧ (∀ earlier later,
           layers = earlier ++ later →
           chain = layerChain path earlier ++ layerChain path later
           ∧ Koa.compose (map call chain) next =
               foldr (run_layer path) (foldr (run_layer path) next later)
                 earlier)
      ∧ (∀ l c,
           let c' := bound path l c in
           let captures :=
             Layer.captures l path (Koa.captures (Koa.route c)) in
           Koa.captures (Koa.route c') = Some captures
           ∧ Koa.params (Koa.route c')
             = Some (Layer.params l path captures (Koa.params (Koa.route c)))
           ∧ Koa.routerName (Koa.route c') = Layer.name l
           ∧ Koa.state c' = Koa.state c ∧ Koa.resp c' = Koa.resp c)
      ∧ (∀ effect,
           passing effect →
           routes router next ctx
           = next (continued_by (length chain)
                     (after_layers effect path layers ctx0))).
Proof.
  intros path matched layers chain Hfound.
  destruct (route_found_last _ _ router Hfound) as [layer Hlast].
  fold path matched layers in Hlast. exists layer. split; [done|].
  intros ctx0.
  assert (routes router next ctx = Koa.compose (map call chain) next ctx0)
    as Hroutes.
  { pose proof (routes_unfold router next ctx) as Hr. simpl in Hr.
    fold path matched layers in Hr. by rewrite Hfound, Hlast in Hr. }
  split_and!;
    try (subst ctx0; unfold record_most_specific;
         by destruct (Js.truthy_opt _)).
  - done.
  - apply layerChain_concat.
  - apply compose_layers.
  - intros earlier later Hsplit. unfold chain. rewrite Hsplit.
    rewrite layerChain_app. split; [done|].
    by rewrite <- layerChain_app, compose_layers, foldr_app.
  - done.
  - intros effect Hpassing. rewrite Hroutes.
    rewrite (compose_passing effect Hpassing). unfold chain.
    by rewrite (steps_layers effect).
Qed.

(** C4. When no route is found, [dispatch] is the caller's [next] (on the
    context in which [matched] and [router] are recorded).  Otherwise the
    last layer of [pathAndMethodMatches] exists, [ctx._matchedRoute] is its
    path, [ctx._matchedRouteName] is its name when it has one (and is left
    as it was when it has none), and the composed chain runs on that
    context. *)
Theorem dispatch_reports_most_specific
    (router : t Layer.t) (next : Koa.M) (ctx : Koa.ctx) :
  let path := request_path router ctx in
  let matched := match_ router path (Koa.method (Koa.req ctx)) in
  (mr_route matched = false →
     routes router next ctx = next (record_match router ctx))
  ∧ (mr_route matched = true →
     ∃ layer ctx',
       last (mr_pathAndMethod matched) = Some layer
       ∧ routes router next ctx =
           Koa.compose (map call (layerChain path (mr_pathAndMethod matched)))
             next ctx'
       ∧ Koa._matchedRoute (Koa.route ctx') = Some (Layer.path layer)
       ∧ (∀ n, Layer.name layer = Some n → n ≠ "" →
            Koa._matchedRouteName (Koa.route ctx') = Some n)
       ∧ (Js.truthy_opt (Layer.name layer) = false →
            Koa._matchedRouteName (Koa.route ctx') =
              Koa._matchedRouteName (Koa.route ctx))
       ∧ Koa.matched (Koa.route ctx') =
           Some (default [] (Koa.matched (Koa.route ctx)) ++ mr_path matched)).
Proof.
  intros path matched.
  pose proof (routes_unfold router next ctx) as Hr. simpl in Hr.
  fold path matched in Hr. split; intros Hfound; rewrite Hfound in Hr; [done|].
  destruct (route_found_last _ _ router Hfound) as [layer Hlast].
  fold path matched in Hlast. rewrite Hlast in Hr.
  exists layer, (record_most_specific layer (record_match router ctx)).
  split_and!; [done|done|..]; unfold record_most_specific.
  - by destruct (Js.truthy_opt _).
  - intros n Hn Hne. rewrite Hn. simpl. unfold Js.truthy_string.
    by rewrite bool_decide_false.
  - by intros ->.
  - by destruct (Js.truthy_opt _).
Qed.

End DispatchFacts.

(** ** [allowedMethods] *)

Section AllowedFacts.

Import Spec.
Import RouterObject Router.

Lemma object_keys_set (key value : string) (o : object) :
  object_keys (object_set key value o) =
    if bool_decide (key ∈ object_keys o) then object_keys o
    else object_keys o ++ [key].
Proof.
  induction o as [|[k v] o IH]; simpl; [done|].
  destruct (decide (k = key)) as [->|Hk].
  - rewrite (bool_decide_true (key = key)) by done. simpl.
    rewrite bool_decide_true; [done|left].
  - rewrite (bool_decide_false (k = key)) by done. simpl. rewrite IH.
    destruct (decide (key ∈ object_keys o)) as [Hin|Hin].
    + rewrite (bool_decide_true _ Hin).
      rewrite bool_decide_true; [done|by right].
    + rewrite (bool_decide_false _ Hin).
      rewrite bool_decide_false; [done|].
      rewrite elem_of_cons. intros [->|?]; done.
Qed.

Lemma object_get_None (key : string) (o : object) :
  key ∉ object_keys o → object_get key o = None.
Proof.
  induction o as [|[k v] o IH]; simpl; [done|].
  rewrite not_elem_of_cons. intros [Hne Hnin].
  rewrite bool_decide_false by done. by apply IH.
Qed.

(** The keys collected from a list of method names, starting from [o]. *)
Lemma collect_methods_keys (ms : list string) (o : object) :
  let o' := fold_left (fun allowed m => object_set m m allowed) ms o in
  (NoDup (object_keys o) → NoDup (object_keys o'))
  ∧ ∀ m, m ∈ object_keys o' ↔ m ∈ object_keys o ∨ m ∈ ms.
Proof.
  revert o. induction ms as [|x ms IH]; intros o; simpl.
  - split; [done|]. intros m. rewrite elem_of_nil. tauto.
  - destruct (IH (object_set x x o)) as [IHn IHm]. split.
    + intros Hnd. apply IHn. rewrite object_keys_set.
      case_bool_decide; [done|].
      apply NoDup_app. split_and!; [done| |apply NoDup_singleton].
      intros y Hy Hy'. apply list_elem_of_singleton in Hy'. by subst.
    + intros m. rewrite IHm, object_keys_set, elem_of_cons.
      case_bool_decide as Hin.
      * split; [tauto|]. intros [?|[->|?]]; tauto.
      * rewrite elem_of_app, list_elem_of_singleton. tauto.
Qed.

Lemma collect_allowed_keys (layers : list Layer.t) (o : object) :
  let o' :=
    fold_left
      (fun allowed route =>
         fold_left (fun allowed m => object_set m m allowed)
           (Layer.methods route) allowed)
      layers o in
  (NoDup (object_keys o) → NoDup (object_keys o'))
  ∧ ∀ m, m ∈ object_keys o' ↔
         m ∈ object_keys o ∨ ∃ l, l ∈ layers ∧ m ∈ Layer.methods l.
Proof.
  revert o. induction layers as [|l layers IH]; intros o; simpl.
  - split; [done|]. intros m. split; [by left|].
    intros [?|(l & Hl & _)]; [done|]. by apply elem_of_nil in Hl.
  - destruct (collect_methods_keys (Layer.methods l) o) as [Hn Hm].
    destruct (IH (fold_left (fun allowed m => object_set m m allowed)
                    (Layer.methods l) o)) as [IHn IHm].
    split; [by intros ?; apply IHn, Hn|].
    intros m. rewrite IHm, Hm. split.
    + intros [[?|?]|(l' & Hl' & ?)]; [by left|right..].
      * exists l. split; [left|done].
      * exists l'. split; [by right|done].
    + intros [?|(l' & Hl' & ?)]; [by left; left|].
      apply elem_of_cons in Hl' as [->|Hl']; [by left; right|].
      right. by exists l'.
Qed.

Lemma allowed_union_spec (layers : list Layer.t) :
  NoDup (allowed_union layers)
  ∧ ∀ m, m ∈ allowed_union layers ↔ ∃ l, l ∈ layers ∧ m ∈ Layer.methods l.
Proof.
  destruct (collect_allowed_keys layers []) as [Hn Hm]. split.
  - apply Hn, NoDup_nil_2.
  - intros m. unfold allowed_union, collect_allowed. rewrite Hm. simpl.
    rewrite elem_of_nil. tauto.
Qed.

Lemma after_next_acts (implemented : list string) (options : allowed_options)
    (ctx : Koa.ctx) (layers : list Layer.t) :
  status_unset_or_404 ctx = true →
  Koa.matched (Koa.route ctx) = Some layers →
  let method := Koa.method (Koa.req ctx) in
  let allowedArr := allowed_union layers in
  let allow := Koa.set_header "Allow" (Js.join ", " allowedArr) in
  after_next implemented options ctx =
    if bool_decide (method ∈ implemented) then
      if bool_decide (allowedArr ≠ []) then
        if bool_decide (method = "OPTIONS") then
          (allow (Koa.set_body (Koa.BodyString "") (Koa.set_status 200 ctx)),
           Koa.Resolved)
        else if negb (Js.truthy_opt (object_get method (collect_allowed layers)))
        then
          if throw options then
            (ctx, Koa.Rejected
                    (default Js.HttpMethodNotAllowed (methodNotAllowed options)))
          else (allow (Koa.set_status 405 ctx), Koa.Resolved)
        else (ctx, Koa.Resolved)
      else (ctx, Koa.Resolved)
    else if throw options then
      (ctx, Koa.Rejected (default Js.HttpNotImplemented (notImplemented options)))
    else (allow (Koa.set_status 501 ctx), Koa.Resolved).
Proof.
  intros Hs Hm method allowedArr allow. unfold after_next.
  rewrite Hs, Hm, truthy_bitnot_indexOf, truthy_length_nonempty.
  fold method. fold (allowed_union layers). fold allowedArr.
  by destruct (bool_decide (method ∈ implemented)).
Qed.

(** C3. The handler of [allowedMethods] runs [next] first and passes a
    rejection on untouched.  After a resolved [next] it leaves alone a
    context whose status is set to a code other than 404.  When the status
    is unset or 404, with [allowedArr] the duplicate-free union of the
    method sets of the layers in [ctx.matched] (for method names that are
    ordinary keys of an object): a request method outside the router's
    implemented methods gives the status 501 and the header [Allow] with
    the union (or the not-implemented throwable under [throw]); otherwise,
    when the union is empty nothing changes, and when it is not, [OPTIONS]
    gives the status 200, the empty string as body and [Allow], and a
    method outside the union, that is no name of [Object.prototype], gives
    the status 405 and [Allow] (or the method-not-allowed throwable under
    [throw]).  In each case the request, the routing properties and the
    state stay as [next] left them. *)
Theorem allowedMethods_contract {L} (router : t L) (options : allowed_options)
    (next : Koa.M) (ctx : Koa.ctx) :
  let ctx1 := (next ctx).1 in
  let method := Koa.method (Koa.req ctx1) in
  let result := allowedMethods router options next ctx in
  let kept :=
    Koa.req result.1 = Koa.req ctx1 ∧ Koa.route result.1 = Koa.route ctx1
    ∧ Koa.state result.1 = Koa.state ctx1 in
  (∀ e, (next ctx).2 = Koa.Rejected e → result = (ctx1, Koa.Rejected e))
  ∧ ((next ctx).2 = Koa.Resolved →
     (∀ code, Koa.status (Koa.resp ctx1) = Some code → code ≠ 0 → code ≠ 404 →
        result = (ctx1, Koa.Resolved))
     ∧ ∀ layers,
         Koa.status (Koa.resp ctx1) = None
         ∨ Koa.status (Koa.resp ctx1) = Some 404 →
         Koa.matched (Koa.route ctx1) = Some layers →
         ordinary_methods layers →
         let allowedArr := allowed_union layers in
         let allow := Js.join ", " allowedArr in
         NoDup allowedArr
         ∧ (∀ m, m ∈ allowedArr ↔ ∃ l, l ∈ layers ∧ m ∈ Layer.methods l)
         ∧ (method ∉ methods router →
              if throw options then
                result =
                  (ctx1, Koa.Rejected
                           (default Js.HttpNotImplemented
                              (notImplemented options)))
              else
                result.2 = Koa.Resolved
                ∧ Koa.status (Koa.resp result.1) = Some 501
                ∧ Koa.header (Koa.resp result.1) !! "Allow" = Some allow
                ∧ kept)
         ∧ (method ∈ methods router → allowedArr = [] →
              result = (ctx1, Koa.Resolved))
         ∧ (method ∈ methods router → allowedArr ≠ [] →
              (method = "OPTIONS" →
                 result.2 = Koa.Resolved
                 ∧ Koa.status (Koa.resp result.1) = Some 200
                 ∧ Koa.body (Koa.resp result.1) = Koa.BodyString ""
                 ∧ Koa.header (Koa.resp result.1) !! "Allow" = Some allow
                 ∧ kept)
              ∧ (method ≠ "OPTIONS" → method ∉ allowedArr →
                 Js.inherited method = false →
                   if throw options then
                     result =
                       (ctx1, Koa.Rejected
                                (default Js.HttpMethodNotAllowed
                                   (methodNotAllowed options)))
                   else
                     result.2 = Koa.Resolved
                     ∧ Koa.status (Koa.resp result.1) = Some 405
                     ∧ Koa.header (Koa.resp result.1) !! "Allow" = Some allow
                     ∧ kept))).
Proof.
  intros ctx1 method result kept. subst kept result ctx1 method.
  unfold allowedMethods, Koa.then_.
  destruct (next ctx) as [c1 o]. simpl. split.
  { intros e ->. done. }
  intros ->. split.
  { intros code Hc H0 H404. unfold after_next, status_unset_or_404.
    rewrite Hc. unfold Js.truthy_num.
    apply Z.eqb_neq in H0, H404. by rewrite H0, H404. }
  intros layers Hs Hm _.
  assert (status_unset_or_404 c1 = true) as Hact.
  { unfold status_unset_or_404. by destruct Hs as [->| ->]. }
  rewrite (after_next_acts _ _ _ _ Hact Hm).
  destruct (allowed_union_spec layers) as [Hnd Hmem].
  split_and!; [done|done|..].
  - intros Hni. rewrite (bool_decide_false _ Hni).
    destruct (throw options); [done|]. simpl.
    by rewrite lookup_insert_eq.
  - intros Hi He. rewrite (bool_decide_true _ Hi).
    rewrite bool_decide_false; [done|]. by intros ?.
  - intros Hi Hne. rewrite (bool_decide_true _ Hi), (bool_decide_true _ Hne).
    split.
    + intros Ho. rewrite (bool_decide_true _ Ho). simpl.
      by rewrite lookup_insert_eq.
    + intros Ho Hni _. rewrite (bool_decide_false _ Ho).
      rewrite (object_get_None _ _ Hni). simpl.
      destruct (throw options); [done|]. simpl.
      by rewrite lookup_insert_eq.
Qed.

End AllowedFacts.

(** ** [route] and [url] *)

Section UrlFacts.

Import RouterObject Router.

Context `{!Layer.impl}.

Lemma route_from_first (pre post : list Layer.t) (layer : Layer.t) (name : string) :
  name ≠ "" →
  Layer.name layer = Some name →
  (∀ l, l ∈ pre → Layer.name l ≠ Some name) →
  route_from (pre ++ layer :: post) name = Some layer.
Proof.
  intros Hne Hn Hpre. induction pre as [|l pre IH]; simpl.
  - rewrite Hn. simpl. unfold Js.truthy_string.
    rewrite (bool_decide_false _ Hne), bool_decide_true; done.
  - rewrite (bool_decide_false (Layer.name l = Some name)).
    + rewrite andb_false_r. apply IH. intros l' Hl'. apply Hpre. by right.
    + apply Hpre. left.
Qed.

Lemma route_from_none (layers : list Layer.t) (name : string) :
  (∀ l, l ∈ layers → Layer.name l ≠ Some name) →
  route_from layers name = None.
Proof.
  induction layers as [|l layers IH]; intros Hno; simpl; [done|].
  rewrite (bool_decide_false (Layer.name l = Some name)).
  - rewrite andb_false_r. apply IH. intros l' Hl'. apply Hno. by right.
  - apply Hno. left.
Qed.

(** The empty string is no name: it never resolves. *)
Lemma route_from_empty_name (layers : list Layer.t) :
  route_from layers "" = None.
Proof.
  induction layers as [|l layers IH]; simpl; [done|].
  destruct (Layer.name l) as [n|]; simpl; [|done].
  unfold Js.truthy_string.
  destruct (decide (n = "")) as [->|Hn].
  - by rewrite bool_decide_true.
  - rewrite (bool_decide_false (Some n = Some "")); [|congruence].
    by rewrite andb_false_r.
Qed.

(** C7. [url] resolves a name to the first layer of the stack that
    carries it, whatever follows in the stack, and gives what that layer's
    [url] gives for the remaining arguments; when no layer carries the name
    it returns, and does not throw, an [Error] that tells the name.  (A
    name is a non-empty string: the scan passes over a layer whose name is
    empty as over one that has none.) *)
Theorem url_resolves_first_named
    (router : t Layer.t) (name : string) (args : list Layer.url_arg) :
  (∀ pre layer post,
     stack router = pre ++ layer :: post →
     Layer.name layer = Some name →
     name ≠ "" →
     (∀ l, l ∈ pre → Layer.name l ≠ Some name) →
     route router name = Some layer
     ∧ url router name args =
         match Layer.url layer args with
         | inl e => inl e
         | inr s => inr (UrlString s)
         end)
  ∧ ((∀ l, l ∈ stack router → Layer.name l ≠ Some name) →
     route router name = None
     ∧ url router name args =
         inr (UrlError (Js.Error ("No route found for name: " +:+ name)))).
Proof.
  split.
  - intros pre layer post Hst Hn Hne Hpre.
    assert (route router name = Some layer) as Hr.
    { unfold route. rewrite Hst. by apply route_from_first. }
    split; [done|]. unfold url. by rewrite Hr.
  - intros Hno.
    assert (route router name = None) as Hr.
    { unfold route. by apply route_from_none. }
    split; [done|]. unfold url. by rewrite Hr.
Qed.

End UrlFacts.

(** ** [use], [register] and [param] on the heap *)

Section HeapFacts.

Import Spec SpecMore.
Import RouterObject Router.

Context `{!Layer.impl}.

Lemma alter_all_lookup (f : Layer.t → Layer.t) (ls : list nat)
    (L : list Layer.t) (l : nat) :
  NoDup ls →
  alter_all f ls L !! l = if decide (l ∈ ls) then f <$> L !! l else L !! l.
Proof.
  unfold alter_all. revert L.
  induction ls as [|x ls IH]; intros L Hnd; simpl; [done|].
  apply NoDup_cons in Hnd as [Hx Hnd]. rewrite IH by done.
  destruct (decide (l = x)) as [->|Hne].
  - rewrite decide_False by done. rewrite decide_True by left.
    by rewrite list_lookup_alter_eq.
  - rewrite list_lookup_alter_ne by done.
    destruct (decide (l ∈ ls)) as [Hin|Hin].
    + rewrite decide_True; [done|by right].
    + rewrite decide_False; [done|].
      rewrite elem_of_cons. tauto.
Qed.


Lemma update_layer_maybe (p : option string) (l : nat) (h : heap) :
  match p with
  | Some p =>
      if Js.truthy_string p then update_layer l (Layer.setPrefix p) h else h
  | None => h
  end
  = update_layer l (maybe_prefix p) h.
Proof.
  assert (∀ L : list Layer.t, alter (fun x => x) l L = L) as Hid.
  { intros L. by apply list_alter_id. }
  destruct h as [L R]. unfold update_layer, maybe_prefix. simpl.
  destruct p as [p|]; [destruct (Js.truthy_string p)|]; simpl;
    try done; f_equal; symmetry; apply Hid.
Qed.

Lemma splice_layer_spec (router : nat) (this : t nat) (path : option string)
    (h : heap) (l : nat) :
  routers h !! router = Some this →
  splice_layer router path h l =
    {| layers := alter (mount_prefixes path this) l (layers h);
       routers := alter (push l) router (routers h) |}.
Proof.
  intros Hr. unfold splice_layer.
  rewrite (update_layer_maybe path l h).
  assert (routers (update_layer l (maybe_prefix path) h) !! router = Some this)
    as -> by done.
  rewrite (update_layer_maybe (prefix (opts this)) l).
  unfold update_router, update_layer, mount_prefixes. simpl. f_equal.
  apply list_eq. intros i.
  destruct (decide (i = l)) as [->|].
  - rewrite !list_lookup_alter_eq. by destruct (layers h !! l).
  - by rewrite !list_lookup_alter_ne.
Qed.

Lemma splice_fold_spec (router : nat) (this : t nat) (path : option string)
    (ls : list nat) (h : heap) :
  routers h !! router = Some this →
  fold_left (splice_layer router path) ls h =
    {| layers := alter_all (mount_prefixes path this) ls (layers h);
       routers := alter (push_all ls) router (routers h) |}.
Proof.
  revert h this. induction ls as [|l ls IH]; intros h this Hr; simpl.
  - destruct h as [L R]. simpl in *. f_equal.
    apply list_eq. intros i. destruct (decide (i = router)) as [->|].
    + rewrite list_lookup_alter_eq, Hr. simpl. f_equal.
      destruct this; unfold push_all; simpl. by rewrite app_nil_r.
    + by rewrite list_lookup_alter_ne.
  - rewrite (splice_layer_spec _ this) by done.
    rewrite (IH _ (push l this)).
    + simpl. f_equal. apply list_eq. intros i.
      destruct (decide (i = router)) as [->|].
      * rewrite !list_lookup_alter_eq. destruct (routers h !! router); [|done].
        simpl. f_equal. unfold push_all, push. simpl.
        by rewrite <- app_assoc.
      * by rewrite !list_lookup_alter_ne.
    + simpl. by rewrite list_lookup_alter_eq, Hr.
Qed.

Lemma update_layer_fold (f : Layer.t → Layer.t) (ls : list nat) (h : heap) :
  fold_left (fun h l => update_layer l f h) ls h =
    {| layers := alter_all f ls (layers h); routers := routers h |}.
Proof.
  revert h. induction ls as [|l ls IH]; intros h; simpl; [by destruct h|].
  by rewrite IH.
Qed.

Lemma param_spec (sub : nat) (this : t nat) (key : string) (fn : fnref)
    (h : heap) :
  routers h !! sub = Some this →
  param sub key fn h =
    {| layers := alter_all (Layer.param key fn) (stack this) (layers h);
       routers := alter (set_param key fn) sub (routers h) |}.
Proof.
  intros Hs. unfold param.
  assert (routers (update_router sub (set_param key fn) h) !! sub
          = Some (set_param key fn this)) as ->.
  { simpl. by rewrite list_lookup_alter_eq, Hs. }
  by rewrite update_layer_fold.
Qed.




Lemma params_get_set (k key : string) (fn : fnref) (o : list (string * fnref)) :
  params_get k (params_set key fn o) =
    if decide (k = key) then Some fn else params_get k o.
Proof.
  induction o as [|[k' v] o IH]; simpl.
  - destruct (decide (k = key)) as [->|Hne].
    + by rewrite bool_decide_true.
    + rewrite bool_decide_false; [done|congruence].
  - destruct (decide (k' = key)) as [->|Hk'].
    + rewrite (bool_decide_true (key = key)) by done. simpl.
      destruct (decide (k = key)) as [->|Hne].
      * by rewrite bool_decide_true.
      * rewrite !bool_decide_false; [done|congruence..].
    + rewrite (bool_decide_false (k' = key)) by done. simpl. rewrite IH.
      destruct (decide (k' = k)) as [->|Hk].
      * rewrite (bool_decide_true (k = k)) by done.
        by rewrite decide_False.
      * by rewrite (bool_decide_false (k' = k)).
Qed.





Lemma prepare_push (l : nat) (this : t nat) (layer : Layer.t) :
  prepare (push l this) layer = prepare this layer.
Proof. done. Qed.

Lemma alter_alter_router (f g : t nat → t nat) (r : nat) (R : list (t nat)) :
  alter f r (alter g r R) = alter (f ∘ g) r R.
Proof.
  apply list_eq. intros i. destruct (decide (i = r)) as [->|].
  - rewrite !list_lookup_alter_eq. by destruct (R !! r).
  - by rewrite !list_lookup_alter_ne.
Qed.

Lemma alter_ext_router (f g : t nat → t nat) (r : nat) (R : list (t nat)) :
  (∀ x, R !! r = Some x → f x = g x) → alter f r R = alter g r R.
Proof.
  intros Hfg. apply list_eq. intros i. destruct (decide (i = r)) as [->|].
  - rewrite !list_lookup_alter_eq. destruct (R !! r) eqn:E; [|done].
    simpl. f_equal. by apply Hfg.
  - by rewrite !list_lookup_alter_ne.
Qed.

Lemma register_path_spec (router : nat) (this : t nat) (p : string)
    (ms : list string) (mw : list fnref) (o : register_opts) (h : heap) :
  routers h !! router = Some this →
  register_path router p ms mw o h =
    {| layers :=
         layers h ++ [prepare this (Layer.new p ms mw (layer_options this o))];
       routers := alter (push (length (layers h))) router (routers h) |}.
Proof. intros Hr. unfold register_path. by rewrite Hr. Qed.

Lemma push_all_push_all (xs ys : list nat) (r : nat) (R : list (t nat)) :
  alter (push_all ys) r (alter (push_all xs) r R) = alter (push_all (xs ++ ys)) r R.
Proof.
  rewrite alter_alter_router. apply alter_ext_router. intros x _.
  unfold push_all. simpl. by rewrite <- app_assoc.
Qed.

Lemma use_plain_fold (router : nat) (this : t nat) (first : option string)
    (ms : list fn_object) (h : heap) :
  routers h !! router = Some this →
  Forall (fun m => fn_router m = None) ms →
  fold_left (use_middleware router first (bool_decide (is_Some first))) ms h =
    {| layers := layers h ++ map (mounted this first) ms;
       routers :=
         alter (push_all (seq (length (layers h)) (length ms))) router
           (routers h) |}.
Proof.
  intros Hr Hplain. revert h this Hr.
  induction Hplain as [|m ms Hm Hplain IH]; intros h this Hr; simpl.
  - destruct h as [L R]. simpl in *. rewrite app_nil_r. f_equal.
    symmetry. apply list_eq. intros i. destruct (decide (i = router)) as [->|].
    + rewrite list_lookup_alter_eq, Hr. simpl. f_equal.
      destruct this. unfold push_all. simpl. by rewrite app_nil_r.
    + by rewrite list_lookup_alter_ne.
  - unfold use_middleware at 2. rewrite Hm. simpl.
    rewrite (register_path_spec _ this) by done.
    rewrite (IH _ (push (length (layers h)) this)).
    + simpl. rewrite length_app. simpl. rewrite Nat.add_1_r.
      rewrite <- app_assoc. simpl. f_equal.
      rewrite alter_alter_router. apply alter_ext_router.
      intros x _. unfold push_all, push. simpl. by rewrite <- app_assoc.
    + simpl. by rewrite list_lookup_alter_eq, Hr.
Qed.

Lemma use_paths_plain (router : nat) (this this0 : t nat)
    (ms : list fn_object) (paths : list string) (h0 : heap) :
  Forall (fun m => fn_router m = None) ms →
  routers h0 !! router = Some this0 →
  opts this0 = opts this → params this0 = params this →
  fold_left (fun h p => use_at router (Some p) ms h) paths h0 =
    {| layers :=
         layers h0
         ++ concat (map (fun p => map (mounted this (Some p)) ms) paths);
       routers :=
         alter
           (push_all
              (seq (length (layers h0))
                 (length
                    (concat
                       (map (fun p => map (mounted this (Some p)) ms)
                          paths)))))
           router (routers h0) |}.
Proof.
  intros Hplain. revert h0 this0.
  induction paths as [|p paths IH]; intros h0 this0 Hr0 Ho Hp; simpl.
  - destruct h0 as [L R]. simpl in *. rewrite app_nil_r. f_equal.
    symmetry. apply list_eq. intros i.
    destruct (decide (i = router)) as [->|].
    + rewrite list_lookup_alter_eq, Hr0. simpl. f_equal.
      destruct this0. unfold push_all. simpl. by rewrite app_nil_r.
    + by rewrite list_lookup_alter_ne.
  - unfold use_at at 2. rewrite (use_plain_fold _ this0) by done.
    rewrite (IH _ (push_all (seq (length (layers h0)) (length ms)) this0)).
    + simpl. rewrite push_all_push_all, !length_app, !length_map.
      rewrite <- seq_app, <- app_assoc. f_equal. f_equal.
      unfold mounted, prepare, layer_options. by rewrite Ho, Hp.
    + simpl. by rewrite list_lookup_alter_eq, Hr0.
    + done.
    + done.
Qed.


End HeapFacts.

(** ** [handleRequest] *)

Section ApplicationFacts.

Import Spec.
Import Application.

Context `{!env}.



End ApplicationFacts.

(** ** [applyMiddleware] *)

Section ReduxFacts.

Import Spec.
Import Redux.

Context {world args : Type}.

Abbreviation eff := (Redux.eff world).
Abbreviation dispatcher := (Redux.dispatcher world).
Abbreviation middleware := (Redux.middleware world).
Abbreviation field := (Redux.field world).

Lemma run_Ret fuel (var : dispatcher) {R : Type} (r : R) (w : world) :
  run fuel var (Ret r) w = Some (w, inr r).
Proof. by destruct fuel. Qed.

Lemma run_Throw fuel (var : dispatcher) {R : Type} (e : Js.thrown) (w : world) :
  run fuel var (@Throw world R e) w = Some (w, inl e).
Proof. by destruct fuel. Qed.

Lemma run_Ext fuel (var : dispatcher) {R : Type} f (k : data → eff R) (w : world) :
  run fuel var (Ext f k) w =
    match f w with
    | (w', inr d) => run fuel var (k d) w'
    | (w', inl e) => Some (w', inl e)
    end.
Proof. destruct fuel; simpl; by destruct (f w) as [? [?|?]]. Qed.

Lemma run_CallDispatch fuel (var : dispatcher) {R : Type} a (k : data → eff R)
    (w : world) :
  run (S fuel) var (CallDispatch a k) w =
    continue_with (run fuel var (var a) w) (fun d => run (S fuel) var (k d)).
Proof.
  simpl. destruct (run fuel var (var a) w) as [[w' [e|d]]|]; done.
Qed.

Lemma run_CallDispatch_0 (var : dispatcher) {R : Type} a (k : data → eff R)
    (w : world) :
  run 0 var (CallDispatch a k) w = None.
Proof. done. Qed.

#[local] Arguments run : simpl never.

Lemma run_bind fuel (var : dispatcher) {A B : Type} (c : eff A) (k : A → eff B)
    (w : world) :
  run fuel var (bind c k) w =
    continue_with (run fuel var c w) (fun a => run fuel var (k a)).
Proof.
  revert w. induction c as [r|e|f k' IH|a k' IH]; intros w.
  - by rewrite run_Ret.
  - simpl bind. by rewrite !run_Throw.
  - simpl bind. rewrite !run_Ext. destruct (f w) as [w' [e|d]]; [done|].
    apply IH.
  - simpl bind. destruct fuel as [|fuel]; [done|].
    rewrite !run_CallDispatch.
    destruct (run fuel var (var a) w) as [[w' [e|d]]|]; simpl; [done| |done].
    apply IH.
Qed.

(** While the variable holds its first value, a call through
    [middlewareAPI.dispatch] throws and what would follow does not run. *)
Lemma dispatch_while_constructing fuel (store : gmap string field) {R : Type}
    (act : list data) (k : data → eff R) (w : world) :
  run (S fuel) thrower (bind (dispatch (middlewareAPI store) act) k) w =
    Some (w, inl constructing).
Proof.
  rewrite run_bind. simpl dispatch. rewrite run_CallDispatch.
  unfold thrower at 2. by rewrite run_Throw.
Qed.

(** Construction needs no fuel beyond the first unit: the only thing the
    variable can be asked to do is to throw. *)
Lemma run_thrower_total fuel {R : Type} (c : eff R) (w : world) :
  is_Some (run (S fuel) thrower c w).
Proof.
  revert w. induction c as [r|e|f k IH|a k IH]; intros w.
  - rewrite run_Ret. by eexists.
  - rewrite run_Throw. by eexists.
  - rewrite run_Ext. destruct (f w) as [w' [e|d]]; [by eexists|apply IH].
  - rewrite run_CallDispatch. unfold thrower at 2. rewrite run_Throw.
    by eexists.
Qed.

Lemma run_map_eff_app fuel (var : dispatcher) {A B : Type} (f : A → eff B)
    (pre post : list A) (w : world) :
  run fuel var (map_eff f (pre ++ post)) w =
    continue_with (run fuel var (map_eff f pre) w) (fun ys w =>
      continue_with (run fuel var (map_eff f post) w) (fun zs w =>
        Some (w, inr (ys ++ zs)))).
Proof.
  revert w. induction pre as [|x pre IH]; intros w; simpl.
  - rewrite run_Ret. simpl.
    by destruct (run fuel var (map_eff f post) w) as [[w' [e|zs]]|].
  - rewrite !run_bind.
    destruct (run fuel var (f x) w) as [[w1 [e|y]]|]; simpl; [done| |done].
    rewrite !run_bind, IH.
    destruct (run fuel var (map_eff f pre) w1) as [[w2 [e|ys]]|]; simpl;
      [done| |done].
    rewrite run_Ret. simpl.
    destruct (run fuel var (map_eff f post) w2) as [[w3 [e|zs]]|]; simpl;
      [done| |done].
    by rewrite run_Ret.
Qed.

(** What a successful [applyMiddleware] went through. *)
Lemma applyMiddleware_success (middlewares : list middleware)
    (createStore : args → world → world * (Js.thrown + gmap string field))
    (a : args) fuel (w w' : world) (res : Redux.applied world) :
  applyMiddleware middlewares createStore a fuel w = Some (w', inr res) →
  ∃ w1 store w2 chain,
    createStore a w = (w1, inr store)
    ∧ run fuel thrower
        (map_eff (fun mw => mw (middlewareAPI store)) middlewares) w1
      = Some (w2, inr chain)
    ∧ run fuel thrower (compose chain (as_function (store !! "dispatch"))) w2
      = Some (w', inr (variable res))
    ∧ returned res = <["dispatch" := Fn (variable res)]> store.
Proof.
  unfold applyMiddleware, construct.
  destruct (createStore a w) as [w1 [e|store]]; [done|].
  rewrite run_bind.
  destruct (run fuel thrower
              (map_eff (fun mw => mw (middlewareAPI store)) middlewares) w1)
    as [[w2 [e|chain]]|] eqn:Hmap; simpl; [done| |done].
  destruct (run fuel thrower
              (compose chain (as_function (store !! "dispatch"))) w2)
    as [[w3 [e|composed]]|] eqn:Hc; [done| |done].
  intros [= <- <-]. simpl. by exists w1, store, w2, chain.
Qed.

(** Once the variable holds a dispatch function, a call through
    [middlewareAPI.dispatch] is a call of that function. *)
Lemma api_dispatch_reads_variable fuel (var : dispatcher)
    (store : gmap string field) (act : list data) (w : world) :
  run (S fuel) var (dispatch (middlewareAPI store) act) w =
    run fuel var (var act) w.
Proof.
  simpl dispatch. rewrite run_CallDispatch.
  by destruct (run fuel var (var act) w) as [[w' [e|d]]|].
Qed.

(** C6. While the chain is built the variable [dispatch] holds the
    function that throws: a call of [middlewareAPI.dispatch] made then
    throws the error and nothing after it runs, so [applyMiddleware] ends
    with that error when a middleware makes such a call as it is applied
    to the API.  Building always ends.  When it ends well, the chain is
    the list of the middlewares applied to the API, the variable and the
    [dispatch] of the returned store hold the composition of that chain
    applied to the base store's [dispatch], and a call of
    [middlewareAPI.dispatch] is from then on a call of that function. *)
Theorem dispatch_throws_until_constructed
    (middlewares : list middleware)
    (createStore : args → world → world * (Js.thrown + gmap string field))
    (a : args) (fuel : nat) (w : world) :
  (∀ store (R : Type) act (k : data → eff R) w0,
     run (S fuel) thrower (bind (dispatch (middlewareAPI store) act) k) w0
     = Some (w0, inl constructing))
  ∧ (∀ w1 store pre mw post w2 chain act k,
       createStore a w = (w1, inr store) →
       middlewares = pre ++ mw :: post →
       run (S fuel) thrower
         (map_eff (fun mw => mw (middlewareAPI store)) pre) w1
       = Some (w2, inr chain) →
       mw (middlewareAPI store) = bind (dispatch (middlewareAPI store) act) k →
       applyMiddleware middlewares createStore a (S fuel) w
       = Some (w2, inl constructing))
  ∧ is_Some (applyMiddleware middlewares createStore a (S fuel) w)
  ∧ (∀ w' res,
       applyMiddleware middlewares createStore a (S fuel) w
       = Some (w', inr res) →
       ∃ w1 store w2 chain,
         createStore a w = (w1, inr store)
         ∧ run (S fuel) thrower
             (map_eff (fun mw => mw (middlewareAPI store)) middlewares) w1
           = Some (w2, inr chain)
         ∧ run (S fuel) thrower
             (compose chain (as_function (store !! "dispatch"))) w2
           = Some (w', inr (variable res))
         ∧ returned res !! "dispatch" = Some (Fn (variable res))
         ∧ ∀ act n w3,
             run (S n) (variable res) (dispatch (middlewareAPI store) act) w3
             = run n (variable res) (variable res act) w3
             ∧ as_function (returned res !! "dispatch") act
               = variable res act).
Proof.
  split_and!.
  - intros. apply dispatch_while_constructing.
  - intros w1 store pre mw post w2 chain act k Hcs -> Hpre Hmw.
    unfold applyMiddleware, construct. rewrite Hcs.
    unfold Redux.middleware in *.
    rewrite run_bind, run_map_eff_app, Hpre. simpl.
    rewrite run_bind, Hmw, dispatch_while_constructing. done.
  - unfold applyMiddleware.
    destruct (createStore a w) as [w1 [e|store]]; [by eexists|].
    destruct (run_thrower_total fuel (construct middlewares store) w1)
      as [[w2 [e|d]] ->]; by eexists.
  - intros w' res Happ.
    destruct (applyMiddleware_success _ _ _ _ _ _ _ Happ)
      as (w1 & store & w2 & chain & Hcs & Hmap & Hcomp & Hret).
    exists w1, store, w2, chain. split_and!; [done..| |].
    + rewrite Hret. apply lookup_insert_eq.
    + intros act n w3. split; [apply api_dispatch_reads_variable|].
      rewrite Hret. by rewrite lookup_insert_eq.
Qed.

(** C10. The store that [applyMiddleware] returns has, under every key but
    [dispatch], what the store made by [createStore] has under it, the
    same value or function, present or absent alike; under [dispatch] it
    has the composition of the chain applied to the base store's
    [dispatch]. *)
Theorem applyMiddleware_replaces_only_dispatch
    (middlewares : list middleware)
    (createStore : args → world → world * (Js.thrown + gmap string field))
    (a : args) (fuel : nat) (w w' : world) (res : Redux.applied world) :
  applyMiddleware middlewares createStore a fuel w = Some (w', inr res) →
  ∃ w1 store w2 chain composed,
    createStore a w = (w1, inr store)
    ∧ (∀ key, key ≠ "dispatch" → returned res !! key = store !! key)
    ∧ returned res !! "dispatch" = Some (Fn composed)
    ∧ dom (returned res) = dom store ∪ {["dispatch"]}
    ∧ run fuel thrower
        (map_eff (fun mw => mw (middlewareAPI store)) middlewares) w1
      = Some (w2, inr chain)
    ∧ run fuel thrower (compose chain (as_function (store !! "dispatch"))) w2
      = Some (w', inr composed).
Proof.
  intros Happ.
  destruct (applyMiddleware_success _ _ _ _ _ _ _ Happ)
    as (w1 & store & w2 & chain & Hcs & Hmap & Hcomp & Hret).
  exists w1, store, w2, chain, (variable res).
  split_and!; [done| | | |done..].
  - intros key Hkey. rewrite Hret. by apply lookup_insert_ne.
  - rewrite Hret. apply lookup_insert_eq.
  - rewrite Hret, dom_insert_L. apply (comm_L _).
Qed.

End ReduxFacts.

(** * The properties on the sample application *)

Section SampleRuns.

Import RouterObject Router Sample.

(** The mount at [/admin] and the route [GET /admin/users] both match
    [GET /admin/users], in registration order, and the handler of the
    mount runs before the handler of the route. *)
Example sample_match :
  let matched := match_ router "/admin/users" "GET" in
  mr_path matched = [admin; users]
  ∧ mr_pathAndMethod matched = [admin; users]
  ∧ mr_route matched = true.
Proof. by vm_compute. Qed.

Example sample_trace :
  Koa.state
    (routes router Application.resolved (request "GET" "/admin/users")).1
  !! "trace" = Some "1;2;".
Proof. by vm_compute. Qed.

(** A handler that continues twice: the rest of the chain runs once and
    the second attempt fails. *)
Example sample_continue_twice :
  let twice : Koa.middleware :=
    fun next c =>
      match next c with
      | (c', Koa.Resolved) => next c'
      | settled => settled
      end in
  let ran :=
    Koa.compose [twice; Koa.exec 1%nat] Application.resolved
      (request "GET" "/") in
  ran.2 = Koa.Rejected (Js.Error "next() called multiple times")
  ∧ Koa.state ran.1 !! "trace" = Some "1;".
Proof. by vm_compute. Qed.

(** Only the mount matches [GET /admin]: no route is found. *)
Example sample_no_route :
  let matched := match_ router "/admin" "GET" in
  mr_pathAndMethod matched = [admin] ∧ mr_route matched = false.
Proof. by vm_compute. Qed.

Lemma chain_follows_match_order_witness :
  mr_route (match_ router "/admin/users" "GET") = true
  ∧ Spec.passing trace
  ∧ ∃ c,
      routes router Application.resolved (request "GET" "/admin/users")
      = Application.resolved c
      ∧ Koa.state c !! "trace" = Some "1;2;"
      ∧ Koa.routerName (Koa.route c) = Some "users"
      ∧ Koa._matchedRoute (Koa.route c) = Some "/admin/users".
Proof.
  assert (Spec.passing trace) as Hpassing by (by split).
  split; [reflexivity|]. split; [exact Hpassing|].
  destruct (chain_follows_match_order router Application.resolved
              (request "GET" "/admin/users") eq_refl)
    as (layer & Hlast & Hchain).
  injection Hlast as <-. simpl in Hchain.
  destruct Hchain as (_ & _ & _ & _ & _ & _ & _ & Hrun).
  eexists. split; [exact (Hrun trace Hpassing)|].
  by vm_compute.
Defined.

Example sample_options :
  let c := (answer quiet "OPTIONS" "/admin/users").1 in
  Koa.status (Koa.resp c) = Some 200
  ∧ Koa.body (Koa.resp c) = Koa.BodyString ""
  ∧ Koa.header (Koa.resp c) !! "Allow" = Some "HEAD, GET".
Proof. by vm_compute. Qed.

Example sample_delete :
  let c := (answer quiet "DELETE" "/admin/users").1 in
  Koa.status (Koa.resp c) = Some 405
  ∧ Koa.header (Koa.resp c) !! "Allow" = Some "HEAD, GET"
  ∧ (answer throwing "DELETE" "/admin/users").2
    = Koa.Rejected Js.HttpMethodNotAllowed.
Proof. by vm_compute. Qed.

Lemma allowedMethods_contract_witness :
  let next := routes router Application.resolved in
  let ctx := request "DELETE" "/admin/users" in
  let result := allowedMethods router quiet next ctx in
  (next ctx).2 = Koa.Resolved
  ∧ Koa.status (Koa.resp (next ctx).1) = None
  ∧ Koa.matched (Koa.route (next ctx).1) = Some [admin; users]
  ∧ Spec.ordinary_methods [admin; users]
  ∧ Js.inherited "DELETE" = false
  ∧ Koa.status (Koa.resp result.1) = Some 405
  ∧ Koa.header (Koa.resp result.1) !! "Allow" = Some "HEAD, GET".
Proof.
  intros next ctx result.
  assert (Spec.ordinary_methods [admin; users]) as Hord.
  { intros l m Hl Hm.
    repeat (apply elem_of_cons in Hl as [->|Hl];
            [repeat (apply elem_of_cons in Hm as [->|Hm]; [by split|]);
             by apply elem_of_nil in Hm|]).
    by apply elem_of_nil in Hl. }
  assert ("DELETE" ∈ verbs) as Himpl
    by (apply (bool_decide_unpack _); reflexivity).
  assert ("DELETE" ∉ Spec.allowed_union [admin; users]) as Hout
    by (apply (bool_decide_unpack _); reflexivity).
  destruct (allowedMethods_contract router quiet next ctx) as [_ Hresolved].
  destruct (Hresolved eq_refl) as [_ Hacts].
  destruct (Hacts [admin; users] (or_introl eq_refl) eq_refl Hord)
    as (_ & _ & _ & _ & Hallowed).
  destruct (Hallowed Himpl ltac:(discriminate)) as [_ Hwrong].
  destruct (Hwrong ltac:(discriminate) Hout eq_refl) as (_ & Hs & Ha & _).
  split; [reflexivity|]. split; [reflexivity|]. split; [reflexivity|].
  split; [exact Hord|]. split; [reflexivity|]. split; [exact Hs|exact Ha].
Defined.

Example sample_not_implemented :
  Koa.status (Koa.resp (answer quiet "PURGE" "/admin/users").1) = Some 501
  ∧ (answer throwing "PURGE" "/admin/users").2
    = Koa.Rejected Js.HttpNotImplemented.
Proof. by vm_compute. Qed.

Lemma url_resolves_first_named_witness :
  route router "users" = Some users
  ∧ url router "users" [] = inr (UrlString "/admin/users").
Proof.
  refine (proj1 (url_resolves_first_named router "users" [])
            [admin] users [] eq_refl eq_refl _ _).
  - discriminate.
  - intros l Hl. apply list_elem_of_singleton in Hl. by subst l.
Defined.

(** Two layers with one name: the first registered is the one found. *)
Example sample_url_first_wins :
  let second := new "/people" ["GET"] [7%nat] (plain true (Some "users")) in
  let twice :=
    {| opts := no_options; methods := verbs; params := [];
       stack := [admin; users; second] |} in
  url twice "users" [] = inr (UrlString "/admin/users").
Proof. by vm_compute. Qed.

Example sample_url_unknown :
  url router "posts" [] =
    inr (UrlError (Js.Error "No route found for name: posts")).
Proof. by vm_compute. Qed.

End SampleRuns.

(** ** Mounting a sub-router *)

Section SampleMount.

Import RouterObject Router Sample.

Example sample_mount :
  stack <$> routers after !! 0%nat = Some [0%nat; 1%nat]
  ∧ Layer.path <$> layers after = ["/api/forums/"; "/api/forums/:pid"]
  ∧ Layer.stack <$> layers after = [[3%nat]; [9%nat; 4%nat]]
  ∧ params <$> routers after !! 1%nat = Some [("pid", 9%nat)].
Proof. by vm_compute. Qed.


(** After the mount, a request for the index of the posts is dispatched
    by [forums] to the handler of the spliced layer. *)
Example sample_mounted_dispatch :
  (fun r =>
     Koa.state
       (routes (view after r) Application.resolved
          (request "GET" "/api/forums/")).1 !! "trace")
  <$> routers after !! 0%nat
  = Some (Some "3;").
Proof. by vm_compute. Qed.

Example sample_use_plain :
  let h1 := use 0%nat NoPath [logger] before in
  let h2 := use 0%nat (Paths "/a" ["/b"]) [logger] before in
  (fun l => (Layer.path l, Layer.methods l, Layer.stack l,
             Layer.end_ (Layer.opts l), Layer.ignoreCaptures (Layer.opts l)))
    <$> layers h1 !! 2%nat
  = Some ("/api(.*)", [], [6%nat], false, Some true)
  ∧ (fun l => (Layer.path l, Layer.ignoreCaptures (Layer.opts l)))
      <$> drop 2 (layers h2)
    = [("/api/a", Some false); ("/api/b", Some false)]
  ∧ stack <$> routers h2 !! 0%nat = Some [2%nat; 3%nat].
Proof. by vm_compute. Qed.


End SampleMount.

(** ** A request through the application *)

Section SampleRequest.

Import RouterObject Sample Application.

(** An application whose only middleware is the router's dispatch,
    which finds no route for [GET /nowhere]: the response is written
    once, with the status code 404. *)
Example sample_not_found :
  let c :=
    (handleRequest (Router.routes router) (request "GET" "/nowhere")).1 in
  Koa.statusCode (Koa.res c) = 404
  ∧ length (Koa.written (Koa.res c)) = 1%nat
  ∧ Koa.finished_listeners (Koa.res c) = 1%nat.
Proof. by vm_compute. Qed.

(** A middleware that fails: the error handler runs, nothing is written. *)
Example sample_failure :
  let failing : Koa.middleware :=
    fun next c => (c, Koa.Rejected (Js.Error "boom")) in
  let c := (handleRequest failing (request "GET" "/")).1 in
  Koa.state c !! "error" = Some "reported"
  ∧ Koa.written (Koa.res c) = [].
Proof. by vm_compute. Qed.

End SampleRequest.

(** ** A store with two middlewares *)

Section StoreRuns.

Import Redux SampleStore.

Example sample_dispatch :
  run 3 enhanced_dispatch (enhanced_dispatch [Num 2]) [] =
    Some ([[Str "marked"; Num 0]; [Str "marked"; Num 1]; [Str "marked"; Num 2]],
          inr (Str "marked")).
Proof. by vm_compute. Qed.

Example sample_hasty :
  applyMiddleware [mark; hasty; countdown] createStore tt 1 [] =
    Some ([], inl constructing).
Proof. by vm_compute. Qed.

Lemma applyMiddleware_replaces_only_dispatch_witness :
  applyMiddleware [countdown; mark] createStore tt 1 []
  = Some ([], inr enhanced_store)
  ∧ ∀ key, key ≠ "dispatch" →
           returned enhanced_store !! key = base_store !! key.
Proof.
  assert (applyMiddleware [countdown; mark] createStore tt 1 []
          = Some ([], inr enhanced_store)) as Happ by (vm_compute; reflexivity).
  split; [exact Happ|].
  destruct (applyMiddleware_replaces_only_dispatch _ _ _ _ _ _ _ Happ)
    as (w1 & store & w2 & chain & composed & Hcs & Hkeep & _).
  injection Hcs as _ <-. exact Hkeep.
Defined.

End StoreRuns.

(** * Further properties *)

(** ** Matching and dispatch *)

Section MatchMore.

Import RouterObject Router Spec SpecMore.

Context `{!Koa.code, !Layer.impl}.

(** X1. Matching against a stack made of two parts is matching against each
    part: the lists follow one another and a route is found when either
    part has one. *)
Theorem match_of_appended_stacks
    (router : t Layer.t) (xs ys : list Layer.t) (path method : string) :
  let whole := match_ (with_stack router (xs ++ ys)) path method in
  let first := match_ (with_stack router xs) path method in
  let second := match_ (with_stack router ys) path method in
  mr_path whole = mr_path first ++ mr_path second
  ∧ mr_pathAndMethod whole = mr_pathAndMethod first ++ mr_pathAndMethod second
  ∧ mr_route whole = mr_route first || mr_route second.
Proof.
  intros whole first second.
  pose (empty := {| mr_path := []; mr_pathAndMethod := []; mr_route := false |}).
  destruct (match_fold path method (xs ++ ys) empty) as (Hp & Hpm & Hr).
  destruct (match_fold path method xs empty) as (Hp1 & Hpm1 & Hr1).
  destruct (match_fold path method ys empty) as (Hp2 & Hpm2 & Hr2).
  simpl in *. subst whole first second. unfold match_. simpl. fold empty.
  rewrite Hp, Hpm, Hp1, Hpm1, Hp2, Hpm2.
  rewrite !filter_app. split_and!; [done..|].
  apply eq_true_iff_eq. rewrite orb_true_iff, Hr, Hr1, Hr2.
  rewrite !filter_app. split.
  - intros [?|(l & Hl & Hne)]; [done|].
    apply elem_of_app in Hl as [Hl|Hl]; [left|right]; right; by exists l.
  - intros [[?|(l & Hl & Hne)]|[?|(l & Hl & Hne)]]; try done; right; exists l;
      (split; [|done]); apply elem_of_app; [by left|by right].
Qed.

(** X2. A router whose layers declare no method, as after [use] alone, finds
    no route for any request: its dispatch is the caller's [next]. *)
Theorem middleware_only_router_passes_on
    (router : t Layer.t) (next : Koa.M) (ctx : Koa.ctx) :
  (∀ l, l ∈ stack router → Layer.methods l = []) →
  mr_route
    (match_ router (request_path router ctx) (Koa.method (Koa.req ctx)))
  = false
  ∧ routes router next ctx = next (record_match router ctx).
Proof.
  intros Hall.
  assert (mr_route
            (match_ router (request_path router ctx)
               (Koa.method (Koa.req ctx))) = false) as Hr.
  { apply not_true_is_false. intros Hfound.
    apply route_found_iff in Hfound as (l & Hl & Hne).
    apply Hne, Hall.
    destruct (match_fold (request_path router ctx) (Koa.method (Koa.req ctx))
                (stack router)
                {| mr_path := []; mr_pathAndMethod := []; mr_route := false |})
      as (_ & Hpm & _).
    unfold match_ in Hl. simpl in Hpm. rewrite Hpm in Hl.
    apply list_elem_of_filter in Hl as [_ Hl].
    by apply list_elem_of_filter in Hl as [_ Hl]. }
  split; [done|].
  pose proof (routes_unfold router next ctx) as Hu. simpl in Hu.
  by rewrite Hr in Hu.
Qed.


End MatchMore.

(** ** [allowedMethods] after dispatch *)

Section AllowedMore.

Import RouterObject Router Spec SpecMore.

Context `{!Koa.code, !Layer.impl}.

Lemma object_get_set (k key value : string) (o : object) :
  object_get k (object_set key value o) =
    if decide (k = key) then Some value else object_get k o.
Proof.
  induction o as [|[k' v] o IH]; simpl.
  - destruct (decide (k = key)) as [->|Hne].
    + by rewrite bool_decide_true.
    + rewrite bool_decide_false; [done|congruence].
  - destruct (decide (k' = key)) as [->|Hk'].
    + rewrite (bool_decide_true (key = key)) by done. simpl.
      destruct (decide (k = key)) as [->|Hne].
      * by rewrite bool_decide_true.
      * rewrite !bool_decide_false; [done|congruence..].
    + rewrite (bool_decide_false (k' = key)) by done. simpl. rewrite IH.
      destruct (decide (k' = k)) as [->|Hk].
      * rewrite (bool_decide_true (k = k)) by done. by rewrite decide_False.
      * by rewrite (bool_decide_false (k' = k)).
Qed.

(** Every key of [allowed] holds itself. *)
Lemma collect_allowed_get (layers : list Layer.t) (m : string) :
  m ∈ allowed_union layers → object_get m (collect_allowed layers) = Some m.
Proof.
  assert (∀ ms o, (m ∈ object_keys o → object_get m o = Some m) →
            m ∈ object_keys
                  (fold_left (fun a x => object_set x x a) ms o) →
            object_get m (fold_left (fun a x => object_set x x a) ms o)
            = Some m) as Hinner.
  { induction ms as [|x ms IH]; intros o Ho; simpl; [done|].
    apply IH. rewrite object_get_set, object_keys_set.
    destruct (decide (m = x)) as [->|Hne]; [done|].
    intros Hin. apply Ho. case_bool_decide; [done|].
    apply elem_of_app in Hin as [?|Hin]; [done|].
    by apply list_elem_of_singleton in Hin. }
  assert (∀ ls o, (m ∈ object_keys o → object_get m o = Some m) →
            m ∈ object_keys
                  (fold_left
                     (fun a route =>
                        fold_left (fun a x => object_set x x a)
                          (Layer.methods route) a) ls o) →
            object_get m
              (fold_left
                 (fun a route =>
                    fold_left (fun a x => object_set x x a)
                      (Layer.methods route) a) ls o) = Some m) as Houter.
  { induction ls as [|l ls IH]; intros o Ho; simpl; [done|].
    apply IH. by apply Hinner. }
  apply Houter. simpl. intros Hin. by apply elem_of_nil in Hin.
Qed.

(** X4. A request whose method is registered on a matched path is left as the
    rest of the pipeline left it. *)
Theorem allowedMethods_leaves_allowed_method {L} (router : t L)
    (options : allowed_options) (next : Koa.M) (ctx : Koa.ctx)
    (layers : list Layer.t) (l : Layer.t) :
  let ctx1 := (next ctx).1 in
  let method := Koa.method (Koa.req ctx1) in
  (next ctx).2 = Koa.Resolved →
  Koa.matched (Koa.route ctx1) = Some layers →
  l ∈ layers → method ∈ Layer.methods l →
  method ∈ methods router →
  method ≠ "OPTIONS" → method ≠ "" →
  allowedMethods router options next ctx = next ctx.
Proof.
  intros ctx1 method Hres Hm Hl Hin Himpl Hopt Hne.
  unfold allowedMethods, Koa.then_. subst ctx1 method.
  destruct (next ctx) as [c1 o]. simpl in *. subst o.
  destruct (status_unset_or_404 c1) eqn:Hs.
  2: { unfold after_next. by rewrite Hs. }
  rewrite (after_next_acts _ _ _ _ Hs Hm).
  destruct (allowed_union_spec layers) as [_ Hmem].
  assert (Koa.method (Koa.req c1) ∈ allowed_union layers) as Hu.
  { apply Hmem. by exists l. }
  rewrite (bool_decide_true _ Himpl).
  rewrite bool_decide_true by (intros He; rewrite He in Hu; by apply elem_of_nil in Hu).
  rewrite (bool_decide_false _ Hopt).
  rewrite (collect_allowed_get _ _ Hu). simpl. unfold Js.truthy_string.
  by rewrite (bool_decide_false _ Hne).
Qed.

(** X5. Without a dispatch before it, [ctx.matched] is undefined and the
    handler fails with a [TypeError] as soon as it has to act. *)
Theorem allowedMethods_needs_matched {L} (router : t L)
    (options : allowed_options) (next : Koa.M) (ctx : Koa.ctx) :
  let ctx1 := (next ctx).1 in
  (next ctx).2 = Koa.Resolved →
  (Koa.status (Koa.resp ctx1) = None
   ∨ Koa.status (Koa.resp ctx1) = Some 404) →
  Koa.matched (Koa.route ctx1) = None →
  ∃ message,
    allowedMethods router options next ctx
    = (ctx1, Koa.Rejected (Js.TypeError message)).
Proof.
  intros ctx1 Hres Hs Hm. subst ctx1.
  unfold allowedMethods, Koa.then_, after_next, status_unset_or_404.
  destruct (next ctx) as [c1 o]. simpl in *. subst o. rewrite Hm.
  destruct Hs as [-> | ->]; by eexists.
Qed.

(** X6. A known path with the wrong verb: the path of the request matches
    a layer of the router that declares methods, but no layer recorded in
    [ctx.matched], before or by this router, declares the method of the
    request, which the router implements and which is not [OPTIONS]; the
    status is unset or 404, as it is when no handler has answered.  Then
    the dispatch of the router finds no route, and [allowedMethods] of the
    router around it answers with the status 405 and lists in [Allow] the
    methods of the recorded layers, or fails with the not-allowed throwable
    under [throw].  (Method names are ordinary keys of an object.) *)
Theorem wrong_verb_is_not_allowed (router : t Layer.t)
    (options : allowed_options) (ctx : Koa.ctx) (l : Layer.t) :
  let method := Koa.method (Koa.req ctx) in
  let matched := match_ router (request_path router ctx) method in
  let recorded :=
    default [] (Koa.matched (Koa.route ctx)) ++ mr_path matched in
  let allowedArr := allowed_union recorded in
  let result :=
    allowedMethods router options (routes router (fun c => (c, Koa.Resolved)))
      ctx in
  status_unset_or_404 ctx = true →
  (∀ l', l' ∈ recorded → method ∉ Layer.methods l') →
  l ∈ mr_path matched → Layer.methods l ≠ [] →
  method ∈ methods router → method ≠ "OPTIONS" →
  Js.inherited method = false → ordinary_methods recorded →
  mr_route matched = false
  ∧ (method ∉ allowedArr)
  ∧ allowedArr ≠ []
  ∧ Koa.matched (Koa.route result.1) = Some recorded
  ∧ if throw options then
      result.2
      = Koa.Rejected
          (default Js.HttpMethodNotAllowed (methodNotAllowed options))
      ∧ Koa.resp result.1 = Koa.resp ctx
    else
      result.2 = Koa.Resolved
      ∧ Koa.status (Koa.resp result.1) = Some 405
      ∧ Koa.header (Koa.resp result.1) !! "Allow"
        = Some (Js.join ", " allowedArr).
Proof.
  intros method matched recorded allowedArr result Hs Hwrong Hl Hne Himpl
    Hopt _ _.
  destruct (allowed_union_spec recorded) as [_ Hmem].
  assert (mr_route matched = false) as Hr.
  { destruct (mr_route matched) eqn:E; [|done].
    apply route_found_iff in E as (l' & Hl' & Hne').
    destruct (match_membership (request_path router ctx) method router l')
      as [_ Hpm].
    apply Hpm in Hl' as [Hp [He|Hin]]; [done|].
    exfalso. apply (Hwrong l'); [|done].
    apply elem_of_app. by right. }
  assert (method ∉ allowedArr) as Hout.
  { intros Hin. apply Hmem in Hin as (l' & Hl' & Hin').
    by apply (Hwrong l'). }
  assert (allowedArr ≠ []) as Hnon.
  { destruct (Layer.methods l) as [|m ms] eqn:E; [done|].
    intros He. assert (m ∈ allowedArr) as Hin;
      [|rewrite He in Hin; by apply elem_of_nil in Hin].
    apply Hmem. exists l. split; [apply elem_of_app; by right|].
    rewrite E. left. }
  split_and!; [done|done|done|..]; subst result;
    unfold allowedMethods, Koa.then_;
    pose proof (routes_unfold router (fun c => (c, Koa.Resolved)) ctx) as Hu;
    simpl in Hu; fold method matched in Hu; rewrite Hr in Hu; rewrite Hu;
    set (ctx1 := record_match router ctx);
    assert (status_unset_or_404 ctx1 = true) as Hact by done;
    assert (Koa.matched (Koa.route ctx1) = Some recorded) as Hm1 by done;
    rewrite (after_next_acts _ _ _ _ Hact Hm1);
    change (Koa.method (Koa.req ctx1)) with method; fold allowedArr;
    rewrite (bool_decide_true _ Himpl), (bool_decide_true _ Hnon),
      (bool_decide_false _ Hopt), (object_get_None _ _ Hout); simpl;
    destruct (throw options); simpl; try done.
  by rewrite lookup_insert_eq.
Qed.

End AllowedMore.

(** ** Registration on the heap *)

Section HeapMore.

Import RouterObject Router Spec SpecMore.

Context `{!Layer.impl}.

Lemma register_paths_spec (router : nat) (this : t nat) (ps : list string)
    (ms : list string) (mw : list fnref) (o : register_opts) (h : heap) :
  routers h !! router = Some this →
  fold_left (fun h p => register_path router p ms mw o h) ps h =
    {| layers :=
         layers h
         ++ map (fun p =>
                   prepare this (Layer.new p ms mw (layer_options this o))) ps;
       routers :=
         alter (push_all (seq (length (layers h)) (length ps))) router
           (routers h) |}.
Proof.
  revert h this. induction ps as [|p ps IH]; intros h this Hr; simpl.
  - destruct h as [L R]. simpl in *. rewrite app_nil_r. f_equal.
    symmetry. apply list_eq. intros i. destruct (decide (i = router)) as [->|].
    + rewrite list_lookup_alter_eq, Hr. simpl. f_equal.
      destruct this. unfold push_all. simpl. by rewrite app_nil_r.
    + by rewrite list_lookup_alter_ne.
  - rewrite (register_path_spec _ this) by done.
    rewrite (IH _ (push (length (layers h)) this)).
    + simpl. rewrite length_app. simpl. rewrite Nat.add_1_r.
      rewrite <- app_assoc. simpl. f_equal.
      rewrite alter_alter_router. apply alter_ext_router.
      intros x _. unfold push_all, push. simpl. by rewrite <- app_assoc.
    + simpl. by rewrite list_lookup_alter_eq, Hr.
Qed.

(** X7. [register] builds one layer per listed path, in the order of the
    list: the new layers come after the ones there were, which stay as
    they are, their addresses are pushed on the router's stack in the same
    order, and no other router changes.  With an empty array of paths
    nothing changes. *)
Theorem register_appends_a_layer_per_path
    (router : nat) (this : t nat) (path : path_arg) (ms : list string)
    (mw : list fnref) (o : register_opts) (h : heap) :
  routers h !! router = Some this →
  let h' := register router path ms mw o h in
  layers h' =
    layers h
    ++ map (fun p => prepare this (Layer.new p ms mw (layer_options this o)))
         (listed path)
  ∧ routers h' !! router
    = Some (push_all (seq (length (layers h)) (length (listed path))) this)
  ∧ (∀ r, r ≠ router → routers h' !! r = routers h !! r)
  ∧ (∀ l layer, layers h !! l = Some layer → layers h' !! l = Some layer)
  ∧ (listed path = [] → h' = h).
Proof.
  intros Hr h'.
  assert (h' =
            {| layers :=
                 layers h
                 ++ map (fun p =>
                           prepare this
                             (Layer.new p ms mw (layer_options this o)))
                      (listed path);
               routers :=
                 alter (push_all (seq (length (layers h))
                                    (length (listed path))))
                   router (routers h) |}) as ->.
  { subst h'. destruct path as [p|ps]; simpl.
    - by rewrite (register_path_spec _ this).
    - by apply register_paths_spec. }
  simpl. split_and!.
  - done.
  - by rewrite list_lookup_alter_eq, Hr.
  - intros r Hne. by rewrite list_lookup_alter_ne.
  - intros l layer Hl. by apply lookup_app_l_Some.
  - intros ->. simpl. destruct h as [L R]. simpl in *. rewrite app_nil_r.
    f_equal. apply list_eq. intros i. destruct (decide (i = router)) as [->|].
    + rewrite list_lookup_alter_eq, Hr. simpl. f_equal.
      destruct this. unfold push_all. simpl. by rewrite app_nil_r.
    + by rewrite list_lookup_alter_ne.
Qed.

(** X8. [use] with plain middleware only builds one layer per mount path and
    per middleware, path by path and, under each path, in the order of the
    middleware; the layers there were stay as they are, the addresses of
    the new ones are pushed on the router's stack in that order, and no
    other router changes. *)
Theorem use_registers_each_middleware_under_each_path
    (router : nat) (this : t nat) (first : use_path) (ms : list fn_object)
    (h : heap) :
  routers h !! router = Some this →
  Forall (fun m => fn_router m = None) ms →
  let h' := use router first ms h in
  let added :=
    concat (map (fun path => map (mounted this path) ms) (mounts first)) in
  layers h' = layers h ++ added
  ∧ routers h' !! router
    = Some (push_all (seq (length (layers h)) (length added)) this)
  ∧ length added = (length (mounts first) * length ms)%nat
  ∧ (∀ r, r ≠ router → routers h' !! r = routers h !! r).
Proof.
  intros Hr Hplain h' added.
  assert (h' = {| layers := layers h ++ added;
                  routers :=
                    alter (push_all (seq (length (layers h)) (length added)))
                      router (routers h) |}) as ->.
  { subst h' added. destruct first as [|p|p ps].
    - simpl. unfold use_at. rewrite (use_plain_fold _ this) by done.
      by rewrite !app_nil_r, length_map.
    - simpl. unfold use_at. rewrite (use_plain_fold _ this) by done.
      by rewrite !app_nil_r, length_map.
    - unfold mounts. rewrite map_map.
      exact (use_paths_plain router this this ms (p :: ps) h Hplain Hr
               eq_refl eq_refl). }
  simpl. split_and!.
  - done.
  - by rewrite list_lookup_alter_eq, Hr.
  - subst added. induction (mounts first) as [|x xs IH]; simpl; [done|].
    by rewrite length_app, length_map, IH.
  - intros r Hne. by rewrite list_lookup_alter_ne.
Qed.

Lemma params_keys_set (key : string) (fn : fnref) (o : list (string * fnref)) :
  map fst (params_set key fn o) =
    if decide (key ∈ map fst o) then map fst o else map fst o ++ [key].
Proof.
  induction o as [|[k v] o IH]; simpl; [done|].
  destruct (decide (k = key)) as [->|Hk].
  - rewrite (bool_decide_true (key = key)) by done. simpl.
    rewrite decide_True; [done|left].
  - rewrite (bool_decide_false (k = key)) by done. simpl. rewrite IH.
    destruct (decide (key ∈ map fst o)) as [Hin|Hin].
    + rewrite decide_True; [done|by right].
    + rewrite decide_False; [done|].
      rewrite elem_of_cons. intros [->|?]; done.
Qed.


(** X9. [param] stores the handler under its name, replacing an earlier one
    in place and keeping the names distinct, and attaches it to every
    layer that the router's stack holds at that time, each once; nothing
    else changes. *)
Theorem param_stores_and_attaches
    (router : nat) (this : t nat) (key : string) (fn : fnref) (h : heap) :
  routers h !! router = Some this →
  NoDup (stack this) →
  let h' := param router key fn h in
  let this' := set_param key fn this in
  routers h' !! router = Some this'
  ∧ stack this' = stack this
  ∧ params_get key (params this') = Some fn
  ∧ (∀ k, k ≠ key → params_get k (params this') = params_get k (params this))
  ∧ (NoDup (map fst (params this)) → NoDup (map fst (params this')))
  ∧ (∀ l, l ∈ stack this →
       layers h' !! l = Layer.param key fn <$> layers h !! l)
  ∧ (∀ l, l ∉ stack this → layers h' !! l = layers h !! l)
  ∧ (∀ r, r ≠ router → routers h' !! r = routers h !! r).
Proof.
  intros Hr Hnd h' this'. subst h'.
  rewrite (param_spec _ this) by done. simpl. split_and!.
  - by rewrite list_lookup_alter_eq, Hr.
  - done.
  - rewrite params_get_set. by rewrite decide_True.
  - intros k Hk. rewrite params_get_set. by rewrite decide_False.
  - intros Hkeys. rewrite params_keys_set. case_decide; [done|].
    apply NoDup_app. split_and!; [done| |apply NoDup_singleton].
    intros x Hx Hx'. apply list_elem_of_singleton in Hx'. by subst.
  - intros l Hl. rewrite alter_all_lookup by done. by rewrite decide_True.
  - intros l Hl. rewrite alter_all_lookup by done. by rewrite decide_False.
  - intros r Hne. by rewrite list_lookup_alter_ne.
Qed.


Lemma strip_slash_app (s : string) : RouterMore.strip_slash (s +:+ "/") = s.
Proof.
  induction s as [|c s IH]; [done|].
  simpl in *. destruct (s +:+ "/") eqn:E.
  - by destruct s.
  - by rewrite IH.
Qed.

Lemma strip_slash_id (s : string) :
  (∀ s', s ≠ s' +:+ "/") → RouterMore.strip_slash s = s.
Proof.
  induction s as [|c s IH]; intros Hno; [done|].
  simpl. destruct s as [|c' s'].
  - case_bool_decide; [|done]. subst c. by destruct (Hno "").
  - f_equal. apply IH. intros s0 He. apply (Hno (String c s0)).
    simpl. by rewrite He.
Qed.

Lemma alter_all_iter (f : Layer.t → Layer.t) (ls : list nat)
    (L : list Layer.t) (l : nat) :
  alter_all f ls L !! l = Nat.iter (occurrences l ls) f <$> L !! l.
Proof.
  unfold alter_all, occurrences. revert L.
  induction ls as [|x ls IH]; intros L; simpl.
  - by destruct (L !! l).
  - rewrite IH, filter_cons. destruct (decide (x = l)) as [->|Hne].
    + rewrite list_lookup_alter_eq. simpl. destruct (L !! l); [|done].
      cbn [fmap option_fmap option_map]. by rewrite Nat.iter_succ_r.
    + by rewrite list_lookup_alter_ne.
Qed.

Lemma shares_same (s : RouterMore.shared) (router r r' : nat) :
  RouterMore.shares s r r' = true →
  RouterMore.shares s router r = RouterMore.shares s router r'.
Proof.
  unfold RouterMore.shares.
  destruct (decide (r' = r)) as [->|Hne]; [done|].
  rewrite (bool_decide_false (r' = r)) by done. simpl.
  destruct (RouterMore.holds s !! r) as [a|] eqn:Ea; [|done].
  destruct (RouterMore.holds s !! r') as [b|] eqn:Eb; [|done].
  intros Hab. apply bool_decide_eq_true in Hab. subst b.
  destruct (decide (r = router)) as [->|Hr];
    destruct (decide (r' = router)) as [->|Hr']; try done;
    rewrite ?(bool_decide_true (router = router)) by done;
    rewrite ?(bool_decide_false (r = router)) by done;
    rewrite ?(bool_decide_false (r' = router)) by done;
    rewrite ?Ea, ?Eb; simpl; by rewrite ?bool_decide_true.
Qed.

(** X11. [prefix] removes a slash that ends the prefix, and writes the result
    into the options object of the router: it is the prefix of the router
    and of every router that holds the same options object, and of no
    other; nothing else of a router changes.  Each layer is prefixed in
    place as many times as the router's stack holds it, and no layer is
    created.  So a prefix given with or without a final slash has the
    same effect. *)
Theorem prefix_strips_stores_and_applies
    (router : nat) (this : t nat) (q : string) (s : RouterMore.shared) :
  routers (RouterMore.store s) !! router = Some this →
  let p := RouterMore.strip_slash q in
  let s' := RouterMore.prefix router q s in
  RouterMore.holds s' = RouterMore.holds s
  ∧ (∀ r R,
       routers (RouterMore.store s) !! r = Some R →
       ∃ R',
         routers (RouterMore.store s') !! r = Some R'
         ∧ RouterObject.prefix (opts R')
           = (if RouterMore.shares s router r then Some p
              else RouterObject.prefix (opts R))
         ∧ sensitive (opts R') = sensitive (opts R)
         ∧ strict (opts R') = strict (opts R)
         ∧ routerPath (opts R') = routerPath (opts R)
         ∧ methods R' = methods R ∧ params R' = params R
         ∧ stack R' = stack R)
  ∧ RouterMore.shares s router router = true
  ∧ length (routers (RouterMore.store s'))
    = length (routers (RouterMore.store s))
  ∧ (∀ l, layers (RouterMore.store s') !! l
          = Nat.iter (occurrences l (stack this)) (Layer.setPrefix p)
            <$> layers (RouterMore.store s) !! l)
  ∧ (coherent s → coherent s')
  ∧ (∀ q0, q = q0 +:+ "/" → p = q0)
  ∧ ((∀ q0, q ≠ q0 +:+ "/") →
       p = q ∧ RouterMore.prefix router (q +:+ "/") s = s').
Proof.
  intros Hr p s'. subst s'. unfold RouterMore.prefix. fold p.
  rewrite Hr. simpl. rewrite update_layer_fold. simpl. split_and!.
  - done.
  - intros r R HR. rewrite list_lookup_imap, HR. simpl.
    destruct (RouterMore.shares s router r); by eexists.
  - unfold RouterMore.shares. by rewrite bool_decide_true.
  - by rewrite length_imap.
  - intros l. apply alter_all_iter.
  - intros Hco r r' R R' Hsh. unfold coherent in Hco. simpl.
    rewrite !list_lookup_imap.
    destruct (routers (RouterMore.store s) !! r) as [R0|] eqn:E; [|done].
    destruct (routers (RouterMore.store s) !! r') as [R0'|] eqn:E';
      [|done].
    simpl. intros [= <-] [= <-].
    assert (RouterMore.shares s r r' = true) as Hsh0 by exact Hsh.
    pose proof (Hco r r' R0 R0' Hsh0 E E') as Heq.
    pose proof (shares_same s router r r' Hsh0) as Hsame.
    rewrite Hsame. destruct (RouterMore.shares s router r'); [|done].
    unfold RouterMore.set_prefix. simpl. by rewrite Heq.
  - intros q0 ->. apply strip_slash_app.
  - intros Hno. assert (p = q) as Hp by (by apply strip_slash_id).
    split; [done|]. rewrite strip_slash_app, <- Hp.
    by rewrite update_layer_fold.
Qed.

(** X12. Mounting a sub-router without a path, on a router that has neither a
    prefix nor param handlers, touches no layer: only the addresses of the
    sub-router's layers are pushed on the mounting router's stack. *)
Theorem use_without_path_prefix_params_touches_no_layer
    (router sub : nat) (this nested : t nat) (path : option string)
    (m : fn_object) (h : heap) :
  fn_router m = Some sub →
  routers h !! router = Some this →
  routers h !! sub = Some nested →
  router ≠ sub →
  Js.truthy_opt path = false →
  Js.truthy_opt (prefix (opts this)) = false →
  params this = [] →
  let h' := use router (from_option Path NoPath path) [m] h in
  layers h' = layers h
  ∧ routers h' !! router = Some (push_all (stack nested) this)
  ∧ (∀ r, r ≠ router → routers h' !! r = routers h !! r).
Proof.
  intros Hm Hr Hs Hne Hpath Hprefix Hparams h'. subst h'.
  assert (use router (from_option Path NoPath path) [m] h
          = use_middleware router path (bool_decide (is_Some path)) h m)
    as -> by (by destruct path).
  unfold use_middleware. rewrite Hm, Hs.
  rewrite (splice_fold_spec _ this) by done. simpl.
  rewrite list_lookup_alter_eq, Hr. simpl. rewrite Hparams. simpl.
  assert (∀ layer, mount_prefixes path this layer = layer) as Hid.
  { intros layer. unfold mount_prefixes, maybe_prefix.
    destruct (prefix (opts this)) as [q|]; simpl in Hprefix;
      [rewrite Hprefix|]; destruct path as [q'|]; simpl in Hpath;
      by rewrite ?Hpath. }
  split_and!.
  - unfold alter_all. generalize (layers h).
    induction (stack nested) as [|l ls IH]; intros L; simpl; [done|].
    rewrite IH. by apply list_alter_id.
  - by rewrite list_lookup_alter_eq, Hr.
  - intros r Hr'. by rewrite list_lookup_alter_ne.
Qed.

End HeapMore.

(** ** Registration seen by a request *)

Section ViewMore.

Import RouterObject Router Spec SpecMore.

Context `{!Koa.code, !Layer.impl}.

Lemma view_stack_extended (h : heap) (this : t nat) (built : Layer.t) :
  stack_in_heap h this →
  omap (fun l => (layers h ++ [built]) !! l) (stack this)
  = omap (fun l => layers h !! l) (stack this).
Proof.
  unfold stack_in_heap. induction (stack this) as [|l ls IH]; intros Hin;
    [done|].
  rewrite !(omap_app _ [l] ls). rewrite IH.
  - f_equal. simpl. rewrite lookup_app_l; [done|]. apply Hin. left.
  - intros l' Hl'. apply Hin. by right.
Qed.

(** X13. A layer registered on a router is, for the requests that follow,
    the last one tried: matching against the router after [register] is
    matching against the router before it, then one more step of the scan
    on the new layer. *)
Theorem registered_layer_is_tried_last
    (router : nat) (this : t nat) (p : string) (ms : list string)
    (mw : list fnref) (o : register_opts) (h : heap) (path method : string) :
  routers h !! router = Some this →
  stack_in_heap h this →
  let h' := register router (OnePath p) ms mw o h in
  let built := prepare this (Layer.new p ms mw (layer_options this o)) in
  ∃ this',
    routers h' !! router = Some this'
    ∧ stack (view h' this') = stack (view h this) ++ [built]
    ∧ match_ (view h' this') path method
      = match_step path method (match_ (view h this) path method) built
    ∧ stack_in_heap h' this'.
Proof.
  intros Hr Hwf h' built. subst h'. simpl.
  unfold register_path. rewrite Hr. simpl. fold built.
  exists (push (length (layers h)) this).
  assert (stack (view {| layers := layers h ++ [built];
                         routers := alter (push (length (layers h))) router
                                      (routers h) |}
                   (push (length (layers h)) this))
          = stack (view h this) ++ [built]) as Hst.
  { simpl. rewrite omap_app, view_stack_extended by done. f_equal. simpl.
    rewrite lookup_app_r by done. by rewrite Nat.sub_diag. }
  split_and!.
  - by rewrite list_lookup_alter_eq, Hr.
  - done.
  - unfold match_. simpl in Hst |- *. rewrite Hst. by rewrite fold_left_app.
  - intros l Hl. simpl in *. rewrite length_app. simpl.
    apply elem_of_app in Hl as [Hl|Hl].
    + apply Hwf in Hl. lia.
    + apply list_elem_of_singleton in Hl. lia.
Qed.


End ViewMore.

(** ** [respond] *)

Section RespondMore.

Import Application Spec SpecMore.

Context `{!env}.

Ltac respond_cases :=
  repeat match goal with
         | |- context [if ?b then _ else _] => destruct b eqn:?
         | |- context [match ?x with _ => _ end] => destruct x eqn:?
         end.

(** X15. [respond] touches neither the request, nor the routing
    properties, nor the state, nor the status, and hands at most one
    chunk or stream to the response.  When the response may not be
    written it does nothing at all; when it may, and no value has to go
    through [JSON.stringify], it hands over exactly one. *)
Theorem respond_writes_once_and_keeps_the_rest (ctx : Koa.ctx) :
  let out := respond ctx in
  (Koa.req out.1 = Koa.req ctx
   ∧ Koa.route out.1 = Koa.route ctx
   ∧ Koa.state out.1 = Koa.state ctx
   ∧ Koa.status (Koa.resp out.1) = Koa.status (Koa.resp ctx)
   ∧ Koa.statusCode (Koa.res out.1) = Koa.statusCode (Koa.res ctx))
  ∧ (Koa.written (Koa.res out.1) = Koa.written (Koa.res ctx)
     ∨ ∃ o, Koa.written (Koa.res out.1) = Koa.written (Koa.res ctx) ++ [o])
  ∧ (¬ may_respond ctx → out = (ctx, Koa.Resolved))
  ∧ (may_respond ctx → serialises ctx = false →
       ∃ o, Koa.written (Koa.res out.1) = Koa.written (Koa.res ctx) ++ [o]).
Proof.
  unfold respond, may_respond, serialises. simpl.
  destruct (decide (Koa.respond_flag (Koa.resp ctx) = Some false)) as [Hf|Hf].
  { rewrite (bool_decide_true _ Hf). simpl.
    split_and!; try done; [by left|tauto]. }
  rewrite (bool_decide_false _ Hf).
  destruct (Koa.writable (Koa.resp ctx)) eqn:Hw; simpl.
  2: { split_and!; try done; [by left|by intros [_ ?]]. }
  respond_cases; simpl; split_and!; try done;
    try (right; by eexists); try (intros _ _; by eexists);
    intros Hno; exfalso; apply Hno; done.
Qed.

(** X16. A status that has no body: [ctx.body] is set to [null] and the
    response is ended without a chunk, whatever the body was.  A [HEAD]
    request (for which nothing has to go through [JSON.stringify]): the
    response is ended without a chunk and [ctx.body] is left as it is. *)
Theorem respond_sends_no_body_for_head_or_empty_status (ctx : Koa.ctx) :
  may_respond ctx →
  let empty :=
    match Koa.status (Koa.resp ctx) with
    | Some code => statuses_empty code
    | None => false
    end in
  let out := respond ctx in
  (empty = true →
     Koa.written (Koa.res out.1)
     = Koa.written (Koa.res ctx) ++ [Koa.End_ None]
     ∧ Koa.body (Koa.resp out.1) = Koa.BodyNull)
  ∧ (empty = false → Koa.method (Koa.req ctx) = "HEAD" →
     serialises ctx = false →
       Koa.written (Koa.res out.1)
       = Koa.written (Koa.res ctx) ++ [Koa.End_ None]
       ∧ Koa.body (Koa.resp out.1) = Koa.body (Koa.resp ctx)).
Proof.
  intros [Hf Hw] empty out. subst out. unfold respond.
  rewrite (bool_decide_false _ Hf), Hw. simpl. fold empty. split.
  - by intros ->.
  - intros -> Hhead _. rewrite (bool_decide_true _ Hhead).
    by destruct (negb _ && _).
Qed.

(** X17. A body that is a string or a buffer is the chunk that ends the
    response, a stream is piped, and in these cases nothing else in the
    context changes. *)
Theorem respond_sends_the_body_as_it_is (ctx : Koa.ctx) :
  may_respond ctx →
  match Koa.status (Koa.resp ctx) with
  | Some code => statuses_empty code
  | None => false
  end = false →
  Koa.method (Koa.req ctx) ≠ "HEAD" →
  (∀ s, Koa.body (Koa.resp ctx) = Koa.BodyString s
        ∨ Koa.body (Koa.resp ctx) = Koa.BodyBuffer s →
     respond ctx = (Koa.write (Koa.End_ (Some s)) ctx, Koa.Resolved))
  ∧ (∀ id, Koa.body (Koa.resp ctx) = Koa.BodyStream id →
       respond ctx = (Koa.write (Koa.Pipe id) ctx, Koa.Resolved)).
Proof.
  intros [Hf Hw] Hempty Hhead. unfold respond.
  rewrite (bool_decide_false _ Hf), Hw, Hempty. simpl.
  rewrite (bool_decide_false _ Hhead). split.
  - by intros s [-> | ->].
  - by intros id ->.
Qed.

(** X18. Once the headers are sent, [respond] sets neither the type nor the
    length nor any header. *)
Theorem respond_sets_no_header_once_sent (ctx : Koa.ctx) :
  Koa.headersSent (Koa.res ctx) = true →
  let out := respond ctx in
  Koa.type (Koa.resp out.1) = Koa.type (Koa.resp ctx)
  ∧ Koa.length (Koa.resp out.1) = Koa.length (Koa.resp ctx)
  ∧ Koa.header (Koa.resp out.1) = Koa.header (Koa.resp ctx).
Proof.
  intros Hsent. unfold respond. rewrite Hsent. simpl.
  respond_cases; simpl; done.
Qed.

End RespondMore.

(** ** [use] of the application *)

Section UseMore.

Import ApplicationMore Spec SpecMore.

Context `{!legacy}.

Lemma use_all_functions (fns : list value) (this : app) :
  Forall (fun v => v ≠ NotFunction) fns →
  use_all fns this =
    ({| middleware := middleware this ++ omap pushed fns;
        deprecate_calls :=
          (deprecate_calls this + length (filter is_generator fns))%nat |},
     None).
Proof.
  intros Hall. revert this.
  induction Hall as [|v fns Hv Hall IH]; intros this; simpl.
  - destruct this. simpl. by rewrite app_nil_r, Nat.add_0_r.
  - destruct v as [|f|f]; [done|..]; simpl; rewrite IH; simpl;
      rewrite <- app_assoc; simpl; [done|].
    by rewrite Nat.add_succ_r.
Qed.

(** X19. The functions given to [use], call after call, are pushed on the
    middleware array in the order of the calls, a generator function in
    its converted form, and [use] calls [deprecate] once for each
    generator function (how many notices that prints is up to [depd]);
    the first value that is not a function makes its call throw a
    [TypeError], and the functions given before it stay registered. *)
Theorem use_keeps_the_order_of_the_calls
    (before after : list value) (this : app) :
  Forall (fun v => v ≠ NotFunction) before →
  let registered :=
    {| middleware := middleware this ++ omap pushed before;
       deprecate_calls :=
         (deprecate_calls this + length (filter is_generator before))%nat |} in
  use_all before this = (registered, None)
  ∧ use_all (before ++ NotFunction :: after) this
    = (registered, Some (Js.TypeError "middleware must be a function!")).
Proof.
  intros Hall registered. split; [by apply use_all_functions|].
  subst registered. revert this.
  induction Hall as [|v fns Hv Hall IH]; intros this; simpl.
  - destruct this. simpl. by rewrite app_nil_r, Nat.add_0_r.
  - destruct v as [|f|f]; [done|..]; simpl; rewrite IH; simpl;
      rewrite <- app_assoc; simpl; [done|].
    by rewrite Nat.add_succ_r.
Qed.

End UseMore.

(** ** [applyMiddleware]: the order of the chain and failures *)

Section ReduxMore.

Import Redux Spec SpecMore.

Context {world args : Type}.

Abbreviation eff := (Redux.eff world).
Abbreviation dispatcher := (Redux.dispatcher world).
Abbreviation middleware := (Redux.middleware world).
Abbreviation field := (Redux.field world).

#[local] Arguments run : simpl never.

Lemma run_map_staged fuel (var : dispatcher) (api : API world)
    (fs : list (API world → dispatcher → dispatcher)) (w : world) :
  run fuel var (map_eff (fun mw : middleware => mw api) (map staged fs)) w
  = Some (w, inr (map (fun f next => Ret (f api next)) fs)).
Proof.
  induction fs as [|f fs IH]; simpl; [by rewrite run_Ret|].
  rewrite run_bind, IH. simpl. by rewrite run_Ret.
Qed.

Lemma run_compose_staged fuel (var : dispatcher) (api : API world)
    (fs : list (API world → dispatcher → dispatcher)) (base : dispatcher)
    (w : world) :
  run fuel var
    (compose (map (fun f next => Ret (f api next)) fs) base) w
  = Some (w, inr (foldr (fun f next => f api next) base fs)).
Proof.
  induction fs as [|f fs IH]; simpl; [by rewrite run_Ret|].
  rewrite run_bind, IH. simpl. by rewrite run_Ret.
Qed.

(** X20. With middlewares of the usual shape the dispatch of the returned
    store is the first middleware around the second around ... around the
    base store's [dispatch]: an action goes through them in the order they
    were listed.  Nothing but [createStore] touches the world, and no
    nested call is needed to build the chain. *)
Theorem staged_middlewares_nest_in_listed_order
    (fs : list (API world → dispatcher → dispatcher))
    (createStore : args → world → world * (Js.thrown + gmap string field))
    (a : args) (fuel : nat) (w w1 : world) (store : gmap string field) :
  createStore a w = (w1, inr store) →
  let composed :=
    foldr (fun f next => f (middlewareAPI store) next)
      (as_function (store !! "dispatch")) fs in
  applyMiddleware (map staged fs) createStore a fuel w
  = Some (w1, inr {| returned := <["dispatch" := Fn composed]> store;
                     variable := composed |}).
Proof.
  intros Hcs composed. unfold applyMiddleware, construct. rewrite Hcs.
  unfold Redux.middleware.
  rewrite run_bind, run_map_staged. simpl.
  by rewrite run_compose_staged.
Qed.

(** X21. With no middleware at all the variable ends up holding the base
    store's own [dispatch], and the store returned is the store created
    when that is a function. *)
Theorem no_middleware_gives_the_base_store
    (createStore : args → world → world * (Js.thrown + gmap string field))
    (a : args) (fuel : nat) (w w1 : world) (store : gmap string field)
    (base : dispatcher) :
  createStore a w = (w1, inr store) →
  store !! "dispatch" = Some (Fn base) →
  applyMiddleware [] createStore a fuel w
  = Some (w1, inr {| returned := store; variable := base |}).
Proof.
  intros Hcs Hd. unfold applyMiddleware, construct. rewrite Hcs.
  simpl. rewrite run_Ret, Hd. simpl. by rewrite insert_id.
Qed.

(** X22. A failure while the store is created or while a middleware is applied
    to the API is the failure of [applyMiddleware]: no store is returned,
    the world stays as the failing step left it, and the middlewares
    listed after the failing one are not applied. *)
Theorem construction_failure_is_passed_on
    (middlewares : list middleware)
    (createStore : args → world → world * (Js.thrown + gmap string field))
    (a : args) (fuel : nat) (w : world) :
  (∀ w1 e, createStore a w = (w1, inl e) →
     applyMiddleware middlewares createStore a fuel w = Some (w1, inl e))
  ∧ (∀ w1 store pre mw post w2 chain w3 e,
       createStore a w = (w1, inr store) →
       middlewares = pre ++ mw :: post →
       run fuel thrower
         (map_eff (fun mw => mw (middlewareAPI store)) pre) w1
       = Some (w2, inr chain) →
       run fuel thrower (mw (middlewareAPI store)) w2 = Some (w3, inl e) →
       applyMiddleware middlewares createStore a fuel w = Some (w3, inl e)).
Proof.
  split.
  - intros w1 e Hcs. unfold applyMiddleware. by rewrite Hcs.
  - intros w1 store pre mw post w2 chain w3 e Hcs -> Hpre Hmw.
    unfold applyMiddleware, construct. rewrite Hcs.
    unfold Redux.middleware in *.
    rewrite run_bind, run_map_eff_app, Hpre. simpl.
    rewrite run_bind, Hmw. done.
Qed.

End ReduxMore.

(** * The further properties on the sample application *)

Section MoreRuns.

Import RouterObject Router Spec SpecMore Sample SampleMore.

Lemma middleware_only_router_passes_on_witness :
  routes mount_only Application.resolved (request "GET" "/admin/users")
  = Application.resolved
      (record_match mount_only (request "GET" "/admin/users")).
Proof.
  refine (proj2 (middleware_only_router_passes_on mount_only
                   Application.resolved (request "GET" "/admin/users") _)).
  intros l Hl. apply list_elem_of_singleton in Hl. by subst l.
Defined.


Lemma allowedMethods_leaves_allowed_method_witness :
  allowedMethods router quiet (routes router Application.resolved)
    (request "GET" "/admin/users")
  = routes router Application.resolved (request "GET" "/admin/users").
Proof.
  refine (allowedMethods_leaves_allowed_method router quiet
            (routes router Application.resolved)
            (request "GET" "/admin/users") [admin; users] users
            eq_refl eq_refl _ _ _ _ _).
  - right. left.
  - right. left.
  - apply (bool_decide_unpack _). reflexivity.
  - discriminate.
  - discriminate.
Defined.

Lemma allowedMethods_needs_matched_witness :
  ∃ message,
    allowedMethods router quiet Application.resolved (request "GET" "/")
    = (request "GET" "/", Koa.Rejected (Js.TypeError message)).
Proof.
  exact (allowedMethods_needs_matched router quiet Application.resolved
           (request "GET" "/") eq_refl (or_introl eq_refl) eq_refl).
Defined.

Lemma wrong_verb_is_not_allowed_witness :
  let ctx :=
    record_match mount_only
      (Koa.set_status 404 (request "DELETE" "/admin/users")) in
  let result :=
    allowedMethods router quiet (routes router (fun c => (c, Koa.Resolved)))
      ctx in
  Koa.status (Koa.resp ctx) = Some 404
  ∧ Koa.matched (Koa.route ctx) = Some [admin]
  ∧ Koa.status (Koa.resp result.1) = Some 405
  ∧ Koa.header (Koa.resp result.1) !! "Allow" = Some "HEAD, GET"
  ∧ Koa.matched (Koa.route result.1) = Some [admin; admin; users].
Proof.
  intros ctx result.
  assert (users ∈ [admin; users]) as Hin by (right; left).
  assert ("DELETE" ∈ verbs) as Himpl
    by (apply (bool_decide_unpack _); reflexivity).
  assert (∀ l', l' ∈ [admin; admin; users] →
                "DELETE" ∉ Layer.methods l') as Hwrong.
  { intros l' Hl'. apply (bool_decide_unpack _).
    repeat (apply elem_of_cons in Hl' as [->|Hl']; [reflexivity|]).
    by apply elem_of_nil in Hl'. }
  assert (ordinary_methods [admin; admin; users]) as Hord.
  { intros l' m Hl' Hm.
    repeat (apply elem_of_cons in Hl' as [->|Hl'];
            [repeat (apply elem_of_cons in Hm as [->|Hm]; [by split|]);
             by apply elem_of_nil in Hm|]).
    by apply elem_of_nil in Hl'. }
  destruct (wrong_verb_is_not_allowed router quiet ctx users eq_refl Hwrong
              Hin ltac:(discriminate) Himpl ltac:(discriminate) eq_refl Hord)
    as (_ & _ & _ & Hm & _ & Hs & Ha).
  split; [reflexivity|]. split; [reflexivity|].
  split; [exact Hs|]. split; [exact Ha|exact Hm].
Defined.

Lemma register_appends_a_layer_per_path_witness :
  Layer.path
  <$> layers (register 1 (ManyPaths ["/a"; "/b"]) ["GET"] [7%nat]
                (use_opts true) before)
  = ["/"; "/:pid"; "/a"; "/b"].
Proof.
  rewrite (proj1 (register_appends_a_layer_per_path 1 posts
                    (ManyPaths ["/a"; "/b"]) ["GET"] [7%nat] (use_opts true)
                    before eq_refl)).
  reflexivity.
Defined.

Lemma use_registers_each_middleware_under_each_path_witness :
  Layer.stack
  <$> layers (use 1 (Paths "/a" ["/b"]) [logger; tracer] before)
  = [[3%nat]; [4%nat]; [6%nat]; [8%nat]; [6%nat]; [8%nat]].
Proof.
  assert (Forall (fun m => fn_router m = None) [logger; tracer]) as Hplain
    by (by repeat constructor).
  rewrite (proj1 (use_registers_each_middleware_under_each_path 1 posts
                    (Paths "/a" ["/b"]) [logger; tracer] before eq_refl
                    Hplain)).
  reflexivity.
Defined.

Lemma param_stores_and_attaches_witness :
  routers (Router.param 1%nat "pid" 9%nat before) !! 1%nat
  = Some (set_param "pid" 9%nat posts).
Proof.
  refine (proj1 (param_stores_and_attaches 1 posts "pid" 9%nat before
                   eq_refl _)).
  apply (bool_decide_unpack _). reflexivity.
Defined.


Lemma prefix_strips_stores_and_applies_witness :
  let s' := RouterMore.prefix 0%nat "/v1/" twins in
  routers (RouterMore.store twins) !! 0%nat = Some twin
  ∧ coherent twins
  ∧ RouterMore.holds twins
    = [RouterMore.Given 0; RouterMore.Given 0; RouterMore.Own 2]
  ∧ (RouterObject.prefix ∘ opts) <$> routers (RouterMore.store twins)
    = [None; None; None]
  ∧ (RouterObject.prefix ∘ opts) <$> routers (RouterMore.store s')
    = [Some "/v1"; Some "/v1"; None]
  ∧ Layer.path <$> layers (RouterMore.store twins) = ["/users"]
  ∧ Layer.path <$> layers (RouterMore.store s') = ["/v1/users"]
  ∧ coherent s'
  ∧ RouterMore.prefix 0%nat "/v1" twins = s'.
Proof.
  intros s'.
  assert (coherent twins) as Hco.
  { intros r r' R R' Hsh HR HR'.
    destruct r as [|[|[|r]]]; destruct r' as [|[|[|r']]];
      try discriminate HR; try discriminate HR'; try discriminate Hsh;
      injection HR as <-; injection HR' as <-; reflexivity. }
  destruct (prefix_strips_stores_and_applies 0 twin "/v1/" twins eq_refl)
    as (_ & _ & _ & _ & _ & Hkeeps & _ & _).
  destruct (prefix_strips_stores_and_applies 0 twin "/v1" twins eq_refl)
    as (_ & _ & _ & _ & _ & _ & _ & Hslash).
  split; [reflexivity|]. split; [exact Hco|].
  split; [reflexivity|]. split; [reflexivity|]. split; [reflexivity|].
  split; [reflexivity|]. split; [reflexivity|].
  split; [exact (Hkeeps Hco)|].
  symmetry. apply Hslash.
  intros q0 Hq. destruct q0 as [|a1 [|a2 [|a3 [|a4 q0]]]]; discriminate Hq.
Defined.

(** The second router holds the options object of the first: a route
    registered on it after the first was given its prefix gets the
    prefix; a route of the third router does not. *)
Example sample_shared_prefix :
  let s' := RouterMore.prefix 0%nat "/v1/" twins in
  let route r :=
    register r (OnePath "/items") ["GET"] [2%nat]
      {| r_end := None; r_name := None; r_sensitive := false;
         r_strict := false; r_prefix := None; r_ignoreCaptures := None |}
      (RouterMore.store s') in
  Layer.path <$> layers (route 1%nat) = ["/v1/users"; "/v1/items"]
  ∧ Layer.path <$> layers (route 2%nat) = ["/v1/users"; "/items"].
Proof. by vm_compute. Qed.

Lemma use_without_path_prefix_params_touches_no_layer_witness :
  layers (use 2 NoPath [posts_routes] three) = layers three.
Proof.
  refine (proj1 (use_without_path_prefix_params_touches_no_layer 2 1 bare
                   posts None posts_routes three eq_refl eq_refl eq_refl _
                   eq_refl eq_refl eq_refl)).
  discriminate.
Defined.

Lemma registered_layer_is_tried_last_witness :
  ∃ this',
    routers (register 1 (OnePath "/x") ["GET"] [7%nat] (use_opts true) before)
    !! 1%nat = Some this'
    ∧ length (stack (view (register 1 (OnePath "/x") ["GET"] [7%nat]
                             (use_opts true) before) this')) = 3%nat.
Proof.
  assert (stack_in_heap before posts) as Hwf.
  { intros l Hl. apply (bool_decide_unpack _) in Hl || idtac.
    apply elem_of_cons in Hl as [->|Hl]; [simpl; lia|].
    apply list_elem_of_singleton in Hl. subst l. simpl. lia. }
  destruct (registered_layer_is_tried_last 1 posts "/x" ["GET"] [7%nat]
              (use_opts true) before "/x" "GET" eq_refl Hwf)
    as (this' & Hr & Hst & _).
  exists this'. split; [exact Hr|]. rewrite Hst. reflexivity.
Defined.

Lemma respond_sends_no_body_for_head_or_empty_status_witness :
  let head := with_body (Koa.BodyString "hello") (request "HEAD" "/") in
  let gone :=
    Koa.set_status 204 (with_body (Koa.BodyString "hello") (request "GET" "/"))
  in
  may_respond head ∧ may_respond gone
  ∧ Koa.written (Koa.res (Application.respond head).1) = [Koa.End_ None]
  ∧ Koa.body (Koa.resp (Application.respond head).1) = Koa.BodyString "hello"
  ∧ Koa.written (Koa.res (Application.respond gone).1) = [Koa.End_ None]
  ∧ Koa.body (Koa.resp (Application.respond gone).1) = Koa.BodyNull.
Proof.
  intros head gone.
  assert (may_respond head) as Hhead by (split; [discriminate|reflexivity]).
  assert (may_respond gone) as Hgone by (split; [discriminate|reflexivity]).
  split; [exact Hhead|]. split; [exact Hgone|].
  assert (serialises head = false) as Hser by reflexivity.
  destruct (proj2 (respond_sends_no_body_for_head_or_empty_status head Hhead)
              eq_refl eq_refl Hser) as [Hw Hb].
  assert (Application.statuses_empty 204 = true) as Hempty by reflexivity.
  destruct (proj1 (respond_sends_no_body_for_head_or_empty_status gone Hgone)
              Hempty) as [Hw' Hb'].
  split; [exact Hw|]. split; [exact Hb|]. split; [exact Hw'|exact Hb'].
Defined.

Lemma respond_sends_the_body_as_it_is_witness :
  Application.respond (with_body (Koa.BodyString "hello") (request "GET" "/"))
  = (Koa.write (Koa.End_ (Some "hello"))
       (with_body (Koa.BodyString "hello") (request "GET" "/")),
     Koa.Resolved).
Proof.
  assert (may_respond (with_body (Koa.BodyString "hello") (request "GET" "/")))
    as Hmay by (split; [discriminate|reflexivity]).
  refine (proj1 (respond_sends_the_body_as_it_is
                   (with_body (Koa.BodyString "hello") (request "GET" "/"))
                   Hmay eq_refl _) "hello" (or_introl eq_refl)).
  discriminate.
Defined.

Lemma respond_sets_no_header_once_sent_witness :
  Koa.type
    (Koa.resp (Application.respond (sent_headers (request "GET" "/"))).1)
  = None.
Proof.
  exact (proj1 (respond_sets_no_header_once_sent
                  (sent_headers (request "GET" "/")) eq_refl)).
Defined.

Lemma use_keeps_the_order_of_the_calls_witness :
  ApplicationMore.use_all
    [ApplicationMore.Function 1%nat; ApplicationMore.GeneratorFunction 2%nat;
     ApplicationMore.NotFunction; ApplicationMore.Function 3%nat] fresh_app
  = ({| ApplicationMore.middleware := [1%nat; 102%nat];
        ApplicationMore.deprecate_calls := 1%nat |},
     Some (Js.TypeError "middleware must be a function!")).
Proof.
  refine (proj2 (use_keeps_the_order_of_the_calls
                   [ApplicationMore.Function 1%nat;
                    ApplicationMore.GeneratorFunction 2%nat]
                   [ApplicationMore.Function 3%nat] fresh_app _)).
  repeat constructor; discriminate.
Defined.

End MoreRuns.

Section MoreStoreRuns.

Import Redux SpecMore SampleStore.

(** The body of [mark], as a middleware of the usual shape. *)
Lemma staged_middlewares_nest_in_listed_order_witness :
  ∃ res,
    applyMiddleware
      [staged (fun api next a => next (Str "first" :: a));
       staged (fun api next a => next (Str "second" :: a))]
      createStore tt 0 [] = Some ([], inr res)
    ∧ run 0 (variable res) (variable res [Num 1]) []
      = Some ([[Str "second"; Str "first"; Num 1]], inr (Str "second")).
Proof.
  eexists. split.
  - exact (staged_middlewares_nest_in_listed_order
             [fun api next a => next (Str "first" :: a);
              fun api next a => next (Str "second" :: a)]
             createStore tt 0 [] [] base_store eq_refl).
  - reflexivity.
Defined.

Lemma no_middleware_gives_the_base_store_witness :
  applyMiddleware [] createStore tt 0 []
  = Some ([], inr {| returned := base_store; variable := base_dispatch |}).
Proof.
  exact (no_middleware_gives_the_base_store createStore tt 0 [] []
           base_store base_dispatch eq_refl eq_refl).
Defined.

End MoreStoreRuns.
